(** * Subtitle backend: timestamps, SRT rendering, speaker renaming and
      speaker reconciliation.

    A shallow embedding of [subtitlerBackend/main.py].  Python values that
    travel through the handlers (JSON payloads, segment dictionaries) are
    embedded as [pyval]; dictionaries are finite maps; floats are IEEE-754
    binary64 values in the Standard Library's [spec_float] with its
    correctly rounded operations; a Python [str] is embedded as the string
    of its UTF-8 bytes; raised exceptions are values of [exn] carried by
    the [result] monad. *)

From Stdlib Require Import ZArith String Ascii List Lia.
From Stdlib Require Import Floats.SpecFloat.
From stdpp Require Import base option list gmap strings pretty sorting.

Set Warnings "-register-all".
Local Open Scope Z_scope.

(** ** Python values *)

Inductive pyval :=
  | PNone
  | PBool (b : bool)
  | PInt (z : Z)
  | PFloat (f : spec_float)
  | PStr (s : string)
  | PList (l : list pyval)
  | PDict (d : gmap string pyval).

(** A segment, as the handlers pass it around, is a [dict] with string keys. *)
Abbreviation dict := (gmap string pyval).

(** Truth value of an object, as [not x] and [if x:] test it. *)
Definition truthy (v : pyval) : bool :=
  match v with
  | PNone => false
  | PBool b => b
  | PInt z => negb (z =? 0)
  | PFloat (S754_zero _) => false
  | PFloat _ => true
  | PStr EmptyString => false
  | PStr _ => true
  | PList [] => false
  | PList _ => true
  | PDict d => match map_to_list d with [] => false | _ => true end
  end.

(** ** Exceptions and the error monad *)

(** [HTTPException(status_code, detail)]: the detail is a literal message
    ([inl]) or [str(e)] of a caught exception [e] ([inr]).
    [JSONDecodeError] is the one [json.loads] raises for a text that is
    not JSON, [OSError] what a refused file operation raises. *)
Inductive exn :=
  | KeyError (key : string)
  | TypeError
  | AttributeError
  | ValueError
  | OverflowError
  | JSONDecodeError
  | RecursionError
  | OSError
  | HTTPException (status_code : Z) (detail : string + exn).

Inductive result (A : Type) :=
  | Ok (a : A)
  | Raise (e : exn).
Arguments Ok {A} a.
Arguments Raise {A} e.

#[global] Instance result_ret : MRet result := @Ok.
#[global] Instance result_bind : MBind result := λ A B f m,
  match m with
  | Ok a => f a
  | Raise e => Raise e
  end.

(** [d[key]]: a missing key raises [KeyError]. *)
Definition getitem (d : dict) (key : string) : result pyval :=
  match d !! key with
  | Some v => Ok v
  | None => Raise (KeyError key)
  end.

(** ** Strings *)

Definition nl : string := String "010"%char EmptyString.

Definition bytes_of_string (s : string) : list N :=
  N_of_ascii <$> list_ascii_of_string s.
Definition string_of_bytes (bs : list N) : string :=
  string_of_list_ascii (ascii_of_N <$> bs).

(** The code points [str.strip()] removes: those for which
    [str.isspace] holds. *)
Definition whitespace_code_points : list N :=
  [9; 10; 11; 12; 13; 28; 29; 30; 31; 32; 133; 160; 5760;
   8192; 8193; 8194; 8195; 8196; 8197; 8198; 8199; 8200; 8201; 8202;
   8232; 8233; 8239; 8287; 12288]%N.

Definition utf8_encode (c : N) : list N :=
  (if c <? 128 then [c]
   else if c <? 2048 then [192 + c / 64; 128 + c mod 64]
   else if c <? 65536 then
     [224 + c / 4096; 128 + (c / 64) mod 64; 128 + c mod 64]
   else
     [240 + c / 262144; 128 + (c / 4096) mod 64;
      128 + (c / 64) mod 64; 128 + c mod 64])%N.

Definition whitespace_encodings : list (list N) :=
  utf8_encode <$> whitespace_code_points.

Fixpoint starts_with (p bs : list N) : bool :=
  match p, bs with
  | [], _ => true
  | x :: p', y :: bs' => (x =? y)%N && starts_with p' bs'
  | _ :: _, [] => false
  end.

(** Drops, from the front of [bs], every leading occurrence of one of the
    byte patterns [pats]; [fuel] bounds the number of characters removed. *)
Fixpoint strip_front (pats : list (list N)) (fuel : nat) (bs : list N)
  : list N :=
  match fuel with
  | O => bs
  | S fuel' =>
      match List.find (λ p, starts_with p bs) pats with
      | Some p => strip_front pats fuel' (drop (length p) bs)
      | None => bs
      end
  end.

(** [s.strip()] *)
Definition py_strip (s : string) : string :=
  let bs := bytes_of_string s in
  let front := strip_front whitespace_encodings (length bs) bs in
  let back :=
    strip_front (reverse <$> whitespace_encodings) (length front)
      (reverse front) in
  string_of_bytes (reverse back).

(** [s.startswith(p)] *)
Definition startswith (s p : string) : bool := String.prefix p s.

(** [format(z, "0<width>")], the [{z:02}] and [{z:03}] of an f-string: the
    sign, then the decimal digits padded with zeros to the width. *)
Definition zeros (n : nat) : string := string_of_list_ascii (replicate n "0"%char).

Definition format_int_zero_padded (width : nat) (z : Z) : string :=
  let digits := pretty (Z.to_N (Z.abs z)) in
  let sign := if z <? 0 then "-" else "" in
  sign +:+
  zeros (width - String.length sign - String.length digits) +:+ digits.

(** ** Floats *)

(** binary64: 53 bits of precision, exponents below 1024. *)
Definition prec : Z := 53.
Definition emax : Z := 1024.

(** [float(z)] for an integer, and the float nearest to the ratio [n/d]
    of two integers that are floats themselves (below [2^53]): the value
    of a decimal literal such as [3661.0005 = 36610005/10000]. *)
Definition float_of_Z (z : Z) : spec_float :=
  binary_normalize prec emax z 0 false.
Definition float_of_ratio (n d : Z) : spec_float :=
  SFdiv prec emax (float_of_Z n) (float_of_Z d).

(** [math.modf(f)]: the fractional and the integral part, each with the
    sign of [f]; both are exact.  The integral part is returned as the
    integer [int()] makes of it, which fails on NaN and on infinities. *)
Definition modf (f : spec_float) : result (spec_float * Z) :=
  match f with
  | S754_zero s => Ok (S754_zero s, 0)
  | S754_nan => Raise ValueError
  | S754_infinity _ => Raise OverflowError
  | S754_finite s m e =>
      if 0 <=? e then Ok (S754_zero s, cond_Zopp s (Z.pos m * 2 ^ e))
      else
        let d := 2 ^ (- e) in
        Ok (binary_normalize prec emax (cond_Zopp s (Z.pos m mod d)) e s,
            cond_Zopp s (Z.pos m / d))
  end.

(** [round(f)] with no digits: the nearest integer, ties to even. *)
Definition py_round (f : spec_float) : result Z :=
  match f with
  | S754_zero _ => Ok 0
  | S754_nan => Raise ValueError
  | S754_infinity _ => Raise OverflowError
  | S754_finite s m e =>
      if 0 <=? e then Ok (cond_Zopp s (Z.pos m * 2 ^ e))
      else
        let d := 2 ^ (- e) in
        let q := Z.pos m / d in
        let r := Z.pos m mod d in
        let n :=
          if 2 * r <? d then q
          else if d <? 2 * r then q + 1
          else if Z.even q then q else q + 1 in
        Ok (cond_Zopp s n)
  end.

(** ** [datetime.timedelta(seconds=...)] *)

(** Python's [divmod] on integers with a positive divisor. *)
Definition divmod (a b : Z) : Z * Z := (a / b, a mod b).

(** The constructor of [datetime.timedelta] when only [seconds] is given
    (every other component 0), following the standard library: a float is
    split by [modf]; its fraction, times [1e6], is rounded to whole
    microseconds; the fields are normalised to [0 <= seconds < 86400] and
    [0 <= microseconds < 1000000]; more than 999999999 days in either
    direction overflow.  The result is [(days, seconds, microseconds)]. *)
Definition timedelta (seconds : pyval) : result (Z * Z * Z) :=
  '(seconds, microseconds) ←
    match seconds with
    | PInt z => Ok (z, 0)
    | PBool b => Ok (Z.b2z b, 0)
    | PFloat f =>
        '(secondsfrac, seconds) ← modf f;
        let usdouble := SFmul prec emax secondsfrac (float_of_Z 1000000) in
        microseconds ← py_round usdouble;
        Ok (seconds, microseconds)
    | _ => Raise TypeError
    end;
  let '(days, seconds) := divmod seconds (24 * 3600) in
  let d := days in
  let s := seconds in
  let '(seconds, us) := divmod microseconds 1000000 in
  let s := s + seconds in
  let '(days, s) := divmod s (24 * 3600) in
  let d := d + days in
  if 999999999 <? Z.abs d then Raise OverflowError else Ok (d, s, us).

(** ** Helper functions of the service *)

(** [f"{hours:02}:{minutes:02}:{seconds:02},{milliseconds:03}"] *)
Definition srt_timestamp (hours minutes seconds milliseconds : Z) : string :=
  format_int_zero_padded 2 hours +:+ ":" +:+
  format_int_zero_padded 2 minutes +:+ ":" +:+
  format_int_zero_padded 2 seconds +:+ "," +:+
  format_int_zero_padded 3 milliseconds.

(** [format_time(seconds)] *)
Definition format_time (seconds : pyval) : result string :=
  '(delta_days, delta_seconds, delta_microseconds) ← timedelta seconds;
  let '(hours, remainder) := divmod delta_seconds 3600 in
  let '(minutes, seconds) := divmod remainder 60 in
  let milliseconds := delta_microseconds / 1000 in
  Ok (srt_timestamp hours minutes seconds milliseconds).

Section Service.

(** The interpreter's text for floats, lists and dicts ([repr]); no
    statement below depends on what it is. *)
Variable repr : pyval → string.

(** [str(v)], as an f-string field [{v}] renders it. *)
Definition py_str (v : pyval) : string :=
  match v with
  | PNone => "None"
  | PBool true => "True"
  | PBool false => "False"
  | PInt z => pretty z
  | PStr s => s
  | PFloat _ | PList _ | PDict _ => repr v
  end.

(** [v.strip()]: only a [str] has the method. *)
Definition strip (v : pyval) : result string :=
  match v with
  | PStr s => Ok (py_strip s)
  | _ => Raise AttributeError
  end.

(** One pass of the loop of [generate_srt]: the text appended to
    [srt_content] for the segment at position [i]. *)
Definition srt_cue (i : nat) (segment : dict) : result string :=
  start ← getitem segment "start";
  start_time ← format_time start;
  end_ ← getitem segment "end";
  end_time ← format_time end_;
  let speaker := default (PStr "SPEAKER_UNKNOWN") (segment !! "speaker") in
  text ← getitem segment "text";
  text ← strip text;
  let line :=
    if decide (is_Some (segment !! "speaker"))
    then "[" +:+ py_str speaker +:+ "]: " +:+ text
    else text in
  Ok (pretty (i + 1)%nat +:+ nl +:+
      start_time +:+ " --> " +:+ end_time +:+ nl +:+
      line +:+ nl +:+ nl).

Fixpoint generate_srt_from (i : nat) (segments : list dict)
    (srt_content : string) : result string :=
  match segments with
  | [] => Ok srt_content
  | segment :: segments' =>
      cue ← srt_cue i segment;
      generate_srt_from (S i) segments' (srt_content +:+ cue)
  end.

(** [generate_srt(segments)] *)
Definition generate_srt (segments : list dict) : result string :=
  generate_srt_from 0 segments "".

(** ** The request models *)

(** [class Segment(BaseModel)]: a validated segment; [seg_speaker = None]
    is Python's [None]. *)
Record Segment := {
  seg_start : spec_float;
  seg_end : spec_float;
  seg_text : string;
  seg_speaker : option string;
}.

(** [Segment(start=..., end=..., text=..., speaker=...)]: a field the
    payload leaves out takes the declared default, [speaker = None]. *)
Definition Segment_init (start end_ : spec_float) (text : string)
    (speaker : option (option string)) : Segment :=
  {| seg_start := start; seg_end := end_; seg_text := text;
     seg_speaker := default None speaker |}.

(** [class RenameSpeakersRequest(BaseModel)] *)
Record RenameSpeakersRequest := {
  segments : list Segment;
  speaker_map : gmap string string;
}.

(** [segment_model.model_dump()]: every declared field becomes a key. *)
Definition model_dump (m : Segment) : dict :=
  {[ "start" := PFloat (seg_start m);
     "end" := PFloat (seg_end m);
     "text" := PStr (seg_text m);
     "speaker" := from_option PStr PNone (seg_speaker m) ]}.

(** ** [POST /rename_speakers] *)

(** The body of the loop over [request.segments]. *)
Definition rename_segment (speaker_map : gmap string string)
    (segment_model : Segment) : dict :=
  let segment := model_dump segment_model in
  match segment !! "speaker" with
  | Some (PStr speaker) =>
      match speaker_map !! speaker with
      | Some new_name =>
          if truthy (PStr new_name)
          then <["speaker" := PStr new_name]> segment
          else segment
      | None => segment
      end
  | _ => segment
  end.

Definition updated_segments (request : RenameSpeakersRequest) : list dict :=
  rename_segment (speaker_map request) <$> segments request.

(** The handler's response: [(srt_content, segments)]. *)
Definition rename_speakers (request : RenameSpeakersRequest)
  : result (string * list dict) :=
  let updated := updated_segments request in
  new_srt ← generate_srt updated;
  Ok (new_srt, updated).

End Service.

(** ** The diarization object *)

(** What [refine_diarization] asks of the object it gets from the
    diarization pipeline, which it handles as a [pyannote.core.Annotation];
    the handler is written against these methods only. *)
Class Annotation (A : Type) := {
  (** [a.crop(PyannoteSegment(start, end))] *)
  crop : A → pyval → pyval → result A;
  (** [bool(a)]: the annotation has at least one track *)
  nonempty : A → bool;
  (** [a.labels()], each label once *)
  labels : A → list string;
  (** [a.label_duration(label)] *)
  label_duration : A → string → spec_float;
  (** [a.rename_labels(generator=speaker_map.get)] *)
  rename_labels : A → gmap string string → result A;
}.

(** [max(d, key=d.get)] over the items of a dict in insertion order: the
    first key whose value no later value exceeds ([>] on floats). *)
Fixpoint max_from (best : string * spec_float)
    (items : list (string * spec_float)) : string :=
  match items with
  | [] => best.1
  | item :: items' =>
      if SFltb best.2 item.2 then max_from item items'
      else max_from best items'
  end.

Definition max_by_value (items : list (string * spec_float)) : option string :=
  match items with
  | [] => None
  | item :: items' => Some (max_from item items')
  end.

(** [segment.get(key)] and [segment[key]] on an arbitrary object: only a
    dict has [get], and only a dict can be indexed by a string. *)
Definition py_get (segment : pyval) (key : string) : result pyval :=
  match segment with
  | PDict d => Ok (default PNone (d !! key))
  | _ => Raise AttributeError
  end.

Definition py_getitem (segment : pyval) (key : string) : result pyval :=
  match segment with
  | PDict d => getitem d key
  | _ => Raise TypeError
  end.

(** The characters of a string, each as the bytes that encode it: a byte
    [10xxxxxx] continues the character of the byte before it. *)
Definition continuation (b : N) : bool := ((128 <=? b) && (b <? 192))%N.

Fixpoint utf8_chars (bs : list N) : list (list N) :=
  match bs with
  | [] => []
  | b :: bs' =>
      match utf8_chars bs' with
      | (b' :: c) :: cs =>
          if continuation b' then (b :: b' :: c) :: cs
          else [b] :: (b' :: c) :: cs
      | cs => [b] :: cs
      end
  end.

(** [for x in v]: the elements a loop over [v] visits. *)
Definition py_iter (v : pyval) : result (list pyval) :=
  match v with
  | PList l => Ok l
  | PDict d => Ok (PStr <$> (map_to_list d).*1)
  | PStr s =>
      Ok ((λ c, PStr (string_of_bytes c)) <$> utf8_chars (bytes_of_string s))
  | _ => Raise TypeError
  end.

(** ** The speaker map of [refine_diarization] *)

Section SpeakerMap.

Context {A : Type} `{Annotation A}.

(** The label [max(speaker_durations, key=speaker_durations.get)] picks
    among the labels of the cropped annotation; [None] when the dict
    [speaker_durations] is empty. *)
Definition dominant_ai_speaker (overlapping_speakers : A) : option string :=
  let speaker_durations :=
    (λ label, (label, label_duration overlapping_speakers label))
      <$> labels overlapping_speakers in
  max_by_value speaker_durations.

(** The body of the loop that builds [speaker_map]: the map after the
    user segment [segment] has been looked at. *)
Definition reconcile_segment (new_diarize_segments : A)
    (speaker_map : gmap string string) (segment : pyval)
  : result (gmap string string) :=
  speaker_name ← py_get segment "speaker";
  if negb (truthy speaker_name) then Ok speaker_map
  else
    match speaker_name with
    | PStr name =>
        if startswith name "SPEAKER_" then Ok speaker_map
        else
          start ← py_getitem segment "start";
          end_ ← py_getitem segment "end";
          overlapping_speakers ← crop new_diarize_segments start end_;
          if nonempty overlapping_speakers then
            match dominant_ai_speaker overlapping_speakers with
            | Some dominant =>
                if decide (is_Some (speaker_map !! dominant))
                then Ok speaker_map
                else Ok (<[dominant := name]> speaker_map)
            | None => Ok speaker_map
            end
          else Ok speaker_map
    | _ => Raise AttributeError
    end.

Fixpoint build_speaker_map_from (new_diarize_segments : A)
    (speaker_map : gmap string string) (user_segments : list pyval)
  : result (gmap string string) :=
  match user_segments with
  | [] => Ok speaker_map
  | segment :: user_segments' =>
      speaker_map' ←
        reconcile_segment new_diarize_segments speaker_map segment;
      build_speaker_map_from new_diarize_segments speaker_map' user_segments'
  end.

(** Step 2 of the handler: the map from AI labels to user names. *)
Definition build_speaker_map (new_diarize_segments : A)
    (user_segments : pyval) : result (gmap string string) :=
  items ← py_iter user_segments;
  build_speaker_map_from new_diarize_segments ∅ items.

End SpeakerMap.

(** ** [POST /refine_diarization] *)

(** The calls to the speech stack, in the order they are made. *)
Inductive call := LoadAudio | Diarize | AssignWordSpeakers.

(** A handler computes a result or raises, and leaves the log of its
    calls. *)
Definition io (A : Type) : Type := list call → result A * list call.

#[global] Instance io_ret : MRet io := λ A a log, (Ok a, log).
#[global] Instance io_bind : MBind io := λ A B f m log,
  match m log with
  | (Ok a, log') => f a log'
  | (Raise e, log') => (Raise e, log')
  end.

Definition lift {A} (r : result A) : io A := λ log, (r, log).
Definition invoke {A} (c : call) (r : result A) : io A :=
  λ log, (r, log ++ [c]).

(** [try: body except Exception as e: handler(e)] *)
Definition try_except {A} (body : io A) (handler : exn → io A) : io A :=
  λ log,
    match body log with
    | (Ok a, log') => (Ok a, log')
    | (Raise e, log') => handler e log'
    end.

Record UploadFile := {
  content_type : option string;
  filename : option string;
  content : string;
}.

(** The parser, the file system and the speech stack the handlers rely
    on. *)
Record Collaborators (A : Type) := {
  Audio : Type;
  (** [json.loads]: the value parsed, [JSONDecodeError] for a text that is
      not JSON, or another exception ([RecursionError] for brackets nested
      too deep, [ValueError] for an integer of too many digits) *)
  json_loads : string → result pyval;
  (** [tempfile.NamedTemporaryFile(delete=True, suffix=...)], which raises
      for a suffix the file system refuses *)
  NamedTemporaryFile : string → result unit;
  (** the exception [await file.read()] raises, if it raises *)
  read_error : UploadFile → option exn;
  (** [temp_file.write(content)] and [temp_file.flush()] *)
  write : string → result unit;
  (** [whisperx.load_audio] on the temporary copy of the upload *)
  load_audio : string → result Audio;
  (** [models.get('diarize')] *)
  diarize_model : option (Audio → result A);
  (** [whisperx.assign_word_speakers(...)["segments"]] *)
  assign_word_speakers : A → list dict → result (list dict);
}.
Arguments Audio {A} _.
Arguments json_loads {A} _ _.
Arguments NamedTemporaryFile {A} _ _.
Arguments read_error {A} _ _.
Arguments write {A} _ _.
Arguments load_audio {A} _ _.
Arguments diarize_model {A} _.
Arguments assign_word_speakers {A} _ _ _.

(** [p.rfind(c)]: the index of the last [c] in [p], or -1. *)
Fixpoint rfind_from (c : ascii) (p : string) (i last : Z) : Z :=
  match p with
  | EmptyString => last
  | String x p' =>
      rfind_from c p' (i + 1) (if Ascii.eqb x c then i else last)
  end.

Definition rfind (c : ascii) (p : string) : Z := rfind_from c p 0 (-1).

(** [os.path.splitext(p)] with the separators of POSIX: the extension
    starts at the last dot of the last path component, unless only dots
    come before it there. *)
Definition splitext (p : string) : string * string :=
  let sepIndex := rfind "/" p in
  let dotIndex := rfind "." p in
  let filenameIndex := Z.to_nat (sepIndex + 1) in
  let leading :=
    String.substring filenameIndex (Z.to_nat dotIndex - filenameIndex) p in
  if (sepIndex <? dotIndex)
     && negb (forallb (Ascii.eqb ".") (list_ascii_of_string leading))
  then (String.substring 0 (Z.to_nat dotIndex) p,
        String.substring (Z.to_nat dotIndex)
          (String.length p - Z.to_nat dotIndex) p)
  else (p, "").

(** The head of the [with] block the three upload handlers share: the
    temporary file is made with the extension of [file.filename] as its
    suffix, the upload is read and written to it.  These steps stand
    before the [try], so what they raise leaves the handler as it is.
    Closing and deleting the file, when the block is left, is taken to
    succeed. *)
Definition temporary_copy {A} (stack : Collaborators A) (file : UploadFile)
  : result unit :=
  name ←
    match filename file with
    | Some name => Ok name
    | None => Raise TypeError
    end;
  _ ← NamedTemporaryFile stack (splitext name).2;
  content ←
    match read_error stack file with
    | Some e => Raise e
    | None => Ok (content file)
    end;
  write stack content.

Section Refine.

Context {A : Type} `{Annotation A}.
Variable repr : pyval → string.
Variable stack : Collaborators A.

(** [{"text": s["text"], "start": s["start"], "end": s["end"]}] *)
Definition without_speaker (s : pyval) : result dict :=
  text ← py_getitem s "text";
  start ← py_getitem s "start";
  end_ ← py_getitem s "end";
  Ok ({[ "text" := text; "start" := start; "end" := end_ ]} : dict).

(** The [try] block of the handler. *)
Definition refine_body (file : UploadFile) (user_segments : pyval)
  : io (string * list dict) :=
  audio ← invoke LoadAudio (load_audio stack (content file));
  diarize ← lift
    match diarize_model stack with
    | Some model => Ok model
    | None =>
        Raise (HTTPException 500 (inl "Diarization model not loaded."))
    end;
  new_diarize_segments ← invoke Diarize (diarize audio);
  speaker_map ← lift (build_speaker_map new_diarize_segments user_segments);
  final_diarization ← lift (rename_labels new_diarize_segments speaker_map);
  result_no_speakers ← lift
    (items ← py_iter user_segments; mapM without_speaker items);
  result_refined ← invoke AssignWordSpeakers
    (assign_word_speakers stack final_diarization result_no_speakers);
  srt_output ← lift (generate_srt repr result_refined);
  mret (srt_output, result_refined).

(** [refine_diarization(file, segments_json)]; the response is
    [(srt_content, segments)]. *)
Definition refine_diarization (file : UploadFile) (segments_json : string)
  : io (string * list dict) :=
  ct ← lift
    match content_type file with
    | Some ct => Ok ct
    | None => Raise AttributeError
    end;
  if negb (startswith ct "audio/" || startswith ct "video/")
  then lift (Raise (HTTPException 400 (inl "Invalid file type.")))
  else
    user_segments ← lift
      match json_loads stack segments_json with
      | Ok v => Ok v
      | Raise JSONDecodeError =>
          Raise (HTTPException 400 (inl "Invalid segments_json format."))
      | Raise e => Raise e
      end;
    _ ← lift (temporary_copy stack file);
    try_except (refine_body file user_segments)
      (λ e, lift (Raise (HTTPException 500 (inr e)))).

End Refine.

(** ** A reference diarization object *)

(** A diarization as a list of labelled time intervals, with the methods
    of [Annotation] computed as [pyannote.core] documents them: cropping
    keeps the part of every track inside the span, and a label's duration
    is the total length of its tracks.  The tracks of one label are taken
    not to overlap each other, as a diarization pipeline outputs them, and
    the one-microsecond tolerance of the library's emptiness test is not
    modelled. *)
Record track := {
  track_start : spec_float;
  track_end : spec_float;
  track_label : string;
}.

Definition to_float (v : pyval) : result spec_float :=
  match v with
  | PInt z => Ok (float_of_Z z)
  | PBool b => Ok (float_of_Z (Z.b2z b))
  | PFloat f => Ok f
  | _ => Raise TypeError
  end.

(** [max(a, b)] and [min(a, b)] on floats *)
Definition float_max (a b : spec_float) : spec_float :=
  if SFltb a b then b else a.
Definition float_min (a b : spec_float) : spec_float :=
  if SFltb b a then b else a.

Definition crop_track (start end_ : spec_float) (t : track) : option track :=
  let s := float_max (track_start t) start in
  let e := float_min (track_end t) end_ in
  if SFltb s e
  then Some {| track_start := s; track_end := e;
               track_label := track_label t |}
  else None.

Definition tracks_crop (a : list track) (start end_ : pyval)
  : result (list track) :=
  s ← to_float start;
  e ← to_float end_;
  Ok (omap (crop_track s e) a).

Definition label_le (x y : string) : Prop := String.leb x y = true.
#[global] Instance label_le_dec x y : Decision (label_le x y) :=
  decide (String.leb x y = true).

Definition tracks_labels (a : list track) : list string :=
  merge_sort label_le (remove_dups (track_label <$> a)).

Definition tracks_label_duration (a : list track) (label : string)
  : spec_float :=
  foldl (λ total t,
           if decide (track_label t = label)
           then SFadd prec emax total
                  (SFsub prec emax (track_end t) (track_start t))
           else total)
        (float_of_Z 0) a.

(** [rename_labels] draws the new labels with [next(generator)]; the
    handler passes the bound method [speaker_map.get], which is not an
    iterator, so the call raises as soon as one label is to be renamed. *)
Definition tracks_rename_labels (a : list track)
    (speaker_map : gmap string string) : result (list track) :=
  match tracks_labels a with
  | [] => Ok a
  | _ :: _ => Raise TypeError
  end.

#[global] Instance tracks_annotation : Annotation (list track) := {|
  crop := tracks_crop;
  nonempty a := match a with [] => false | _ :: _ => true end;
  labels := tracks_labels;
  label_duration := tracks_label_duration;
  rename_labels := tracks_rename_labels;
|}.

(** The diarization and the user segment of the reconciler's example. *)
Definition example_diarization : list track :=
  [ {| track_start := float_of_Z 0; track_end := float_of_Z 5;
       track_label := "SPEAKER_00" |};
    {| track_start := float_of_Z 5; track_end := float_of_Z 10;
       track_label := "SPEAKER_01" |} ].

Definition user_dict (start end_ : Z) (text speaker : string) : dict :=
  {[ "start" := PInt start; "end" := PInt end_;
     "text" := PStr text; "speaker" := PStr speaker ]}.

Definition user_segment (start end_ : Z) (text speaker : string) : pyval :=
  PDict (user_dict start end_ text speaker).

(** ** Quantities the statements below are phrased with *)

(** The number of microseconds [timedelta(seconds=x)] stands for: a whole
    number of seconds counts a million each, and the fraction of a float
    is rounded to the nearest microsecond, ties to even. *)
Definition total_microseconds (x : pyval) : result Z :=
  match x with
  | PInt z => Ok (z * 1000000)
  | PBool b => Ok (Z.b2z b * 1000000)
  | PFloat f =>
      '(frac, whole) ← modf f;
      us ← py_round (SFmul prec emax frac (float_of_Z 1000000));
      Ok (whole * 1000000 + us)
  | _ => Raise TypeError
  end.

(** The clock reading of a number of microseconds: the time of day, to
    the millisecond below. *)
Definition clock_of_microseconds (t : Z) : string :=
  srt_timestamp ((t / 3600000000) mod 24) ((t / 60000000) mod 60)
    ((t / 1000000) mod 60) ((t / 1000) mod 1000).

(** The whole milliseconds in a float, none rounded up: the floor of a
    thousand times its exact value. *)
Definition floor_milliseconds (f : spec_float) : option Z :=
  match f with
  | S754_zero _ => Some 0
  | S754_finite s m e =>
      if 0 <=? e then Some (cond_Zopp s (Z.pos m * 2 ^ e) * 1000)
      else Some ((cond_Zopp s (Z.pos m) * 1000) / 2 ^ (- e))
  | _ => None
  end.

(** The timestamp of a number of milliseconds, hours not wrapped. *)
Definition timestamp_of_milliseconds (ms : Z) : string :=
  srt_timestamp (ms / 3600000) ((ms / 60000) mod 60) ((ms / 1000) mod 60)
    (ms mod 1000).

(** A run of whitespace, as the bytes of a text: the encodings of
    characters for which [str.isspace] holds, one after the other. *)
Definition whitespace_run (bs : list N) : Prop :=
  ∃ cs, Forall (λ c, c ∈ whitespace_code_points) cs ∧
        bs = concat (utf8_encode <$> cs).

(** [stripped] is [text] without its leading and trailing whitespace:
    what stands between a run of whitespace at the front and one at the
    back, and neither starts nor ends with a whitespace character. *)
Definition strips_to (text stripped : string) : Prop :=
  ∃ lead trail,
    bytes_of_string text = lead ++ bytes_of_string stripped ++ trail ∧
    whitespace_run lead ∧ whitespace_run trail ∧
    ∀ c, c ∈ whitespace_code_points →
      ¬ utf8_encode c `prefix_of` bytes_of_string stripped ∧
      ¬ utf8_encode c `suffix_of` bytes_of_string stripped.

(** The text line of a cue: the stripped text, behind ["[speaker]: "]
    when the segment has the key ["speaker"]. *)
Definition text_line (repr : pyval → string) (segment : dict)
    (text : string) : string :=
  match segment !! "speaker" with
  | Some speaker => "[" +:+ py_str repr speaker +:+ "]: " +:+ py_strip text
  | None => py_strip text
  end.

(** A cue block: index, time range, text line, blank line. *)
Definition cue_block (index : nat) (start_time end_time line : string)
  : string :=
  pretty index +:+ nl +:+ start_time +:+ " --> " +:+ end_time +:+ nl +:+
  line +:+ nl +:+ nl.

(** The speaker a segment has after [rename_speakers]: the mapped name
    when its speaker is a key of the map and the name is not empty, its
    own speaker otherwise. *)
Definition renamed_speaker (speaker_map : gmap string string)
    (speaker : option string) : option string :=
  match speaker with
  | Some old =>
      match speaker_map !! old with
      | Some new_name => if decide (new_name = "") then Some old else Some new_name
      | None => Some old
      end
  | None => None
  end.

(** A speaker value the reconciler takes as not edited by hand: no
    speaker at all, [None], the empty string, or a name that still
    starts with ["SPEAKER_"]. *)
Definition unedited_speaker (speaker : option pyval) : Prop :=
  speaker = None ∨ speaker = Some PNone ∨ speaker = Some (PStr "") ∨
  ∃ name, speaker = Some (PStr name) ∧ startswith name "SPEAKER_" = true.

(** A file system for the examples: a temporary file is named ["tmp"],
    eight characters and the suffix; a suffix with a NUL byte is refused
    with [ValueError], a name of more than 255 bytes with [OSError]. *)
Definition example_NamedTemporaryFile (suffix : string) : result unit :=
  if existsb (Ascii.eqb "000") (list_ascii_of_string suffix)
  then Raise ValueError
  else if (255 <? 11 + String.length suffix)%nat then Raise OSError
  else Ok tt.

(** A speech stack for the examples: the payload parses to [payload]
    ([None]: it is not JSON), the upload is copied, the audio loads, the
    diarization pipeline is there and returns [diarization], and the
    speaker assignment hands the segments back. *)
Definition example_stack (payload : option pyval) (diarization : list track)
  : Collaborators (list track) :=
  {| Audio := unit;
     json_loads := λ _,
       match payload with
       | Some v => Ok v
       | None => Raise JSONDecodeError
       end;
     NamedTemporaryFile := example_NamedTemporaryFile;
     read_error := λ _, None;
     write := λ _, Ok tt;
     load_audio := λ _, Ok tt;
     diarize_model := Some (λ _, Ok diarization);
     assign_word_speakers := λ _ segs, Ok segs |}.

Definition example_upload : UploadFile :=
  {| content_type := Some "audio/wav"; filename := Some "talk.wav";
     content := "" |}.

(** ** Startup *)

(** [MODEL_SIZE], [DEVICE] and [COMPUTE_TYPE] *)
Definition MODEL_SIZE : string := "large-v3".
Definition DEVICE (cuda_is_available : bool) : string :=
  if cuda_is_available then "cuda" else "cpu".
Definition COMPUTE_TYPE (cuda_is_available : bool) : string :=
  if cuda_is_available then "float16" else "int8".

(** The [models] dict once [load_models] has run. *)
Record Models (W M : Type) := {
  models_whisper : W;
  models_whisper_tiny : W;
  models_diarize : option M;
}.
Arguments models_whisper {W M} _.
Arguments models_whisper_tiny {W M} _.
Arguments models_diarize {W M} _.

Section Startup.

Context {W M : Type}.
Variable cuda_is_available : bool.
(** [whisperx.load_model(size, device, compute_type=...)] *)
Variable load_model : string → string → string → result W.
(** [whisperx.diarize.DiarizationPipeline(use_auth_token=..., device=...)] *)
Variable DiarizationPipeline : string → string → result M.

(** [load_models()], given what [os.getenv("HF_TOKEN")] returned. *)
Definition load_models (HF_TOKEN : option string) : result (Models W M) :=
  let device := DEVICE cuda_is_available in
  let compute_type := COMPUTE_TYPE cuda_is_available in
  whisper ← load_model MODEL_SIZE device compute_type;
  whisper_tiny ← load_model "tiny" device compute_type;
  diarize ←
    match HF_TOKEN with
    | None => Ok None
    | Some token =>
        if negb (truthy (PStr token))
           || String.eqb token "YOUR_HUGGING_FACE_TOKEN"
        then Ok None
        else
          pipeline ← DiarizationPipeline token device;
          Ok (Some pipeline)
    end;
  Ok {| models_whisper := whisper; models_whisper_tiny := whisper_tiny;
        models_diarize := diarize |}.

End Startup.

(** ** [POST /transcribe] and [POST /resync] *)

(** The calls these two handlers make to the speech stack, with what
    tells them apart: the key of the model that transcribes, the language
    the alignment model is loaded for, the segments given to the
    aligner. *)
Inductive stack_call :=
  | CallLoadAudio
  | CallTranscribe (model : string)
  | CallLoadAlignModel (language_code : string)
  | CallAlign (segments : list dict)
  | CallDiarize
  | CallAssignWordSpeakers.

Definition logged (A : Type) : Type :=
  list stack_call → result A * list stack_call.

#[global] Instance logged_ret : MRet logged := λ A a log, (Ok a, log).
#[global] Instance logged_bind : MBind logged := λ A B f m log,
  match m log with
  | (Ok a, log') => f a log'
  | (Raise e, log') => (Raise e, log')
  end.

Definition pure_step {A} (r : result A) : logged A := λ log, (r, log).
Definition perform {A} (c : stack_call) (r : result A) : logged A :=
  λ log, (r, log ++ [c]).

(** [try: body except Exception as e: handler(e)] *)
Definition catch_all {A} (body : logged A) (handler : exn → logged A)
  : logged A :=
  λ log,
    match body log with
    | (Ok a, log') => (Ok a, log')
    | (Raise e, log') => handler e log'
    end.

(** What [transcribe] returns, as far as the handlers read it:
    [result["language"]] and [result["segments"]]. *)
Record Transcription := {
  result_language : string;
  result_segments : list dict;
}.

(** The speech stack of the two handlers: the collaborators of
    [refine_diarization], and the recognition and alignment models. *)
Record Transcriber (A : Type) := {
  base : Collaborators A;
  AlignModel : Type;
  (** [models[key].transcribe(audio, batch_size=16)] *)
  transcribe : string → Audio base → result Transcription;
  (** [whisperx.load_align_model(language_code=..., device=DEVICE)] *)
  load_align_model : string → result AlignModel;
  (** [whisperx.align(segments, align_model, metadata, audio, ...)["segments"]] *)
  align : list dict → AlignModel → Audio base → result (list dict);
}.
Arguments base {A} _.
Arguments AlignModel {A} _.
Arguments transcribe {A} _ _ _.
Arguments load_align_model {A} _ _.
Arguments align {A} _ _ _ _.

(** [str.splitlines()]: the line boundaries, as the bytes that encode
    them: LF, CR, CR LF, VT, FF, FS, GS, RS, NEL, LS and PS. *)
Definition line_break_length (bs : list N) : nat :=
  match bs with
  | 13 :: 10 :: _ => 2%nat
  | 10 :: _ | 11 :: _ | 12 :: _ | 13 :: _ | 28 :: _ | 29 :: _ | 30 :: _ =>
      1%nat
  | 194 :: 133 :: _ => 2%nat
  | 226 :: 128 :: 168 :: _ | 226 :: 128 :: 169 :: _ => 3%nat
  | _ => 0%nat
  end%N.

(** The lines of [bs]: [line] holds, last byte first, the bytes of the
    line being read; a last line without a boundary counts when it is
    not empty. *)
Fixpoint splitlines_from (fuel : nat) (line : list N) (bs : list N)
  : list (list N) :=
  match fuel, bs with
  | _, [] => match line with [] => [] | _ => [reverse line] end
  | O, _ => [reverse line]
  | S fuel', b :: bs' =>
      match line_break_length bs with
      | O => splitlines_from fuel' (b :: line) bs'
      | k => reverse line :: splitlines_from fuel' [] (drop k bs)
      end
  end.

Definition splitlines (s : string) : list string :=
  let bs := bytes_of_string s in
  string_of_bytes <$> splitlines_from (length bs) [] bs.

(** [[{"text": line} for line in transcript.splitlines() if line.strip()]] *)
Definition transcript_segments (transcript : string) : list dict :=
  (λ line, ({[ "text" := PStr line ]} : dict)) <$>
    filter (λ line, truthy (PStr (py_strip line)) = true)
      (splitlines transcript).

Section Transcribe.

Context {A : Type}.
Variable repr : pyval → string.
Variable stack : Transcriber A.

(** The check both handlers start with, and the temporary copy of the
    upload. *)
Definition media_upload (file : UploadFile) : logged unit :=
  ct ← pure_step
    match content_type file with
    | Some ct => Ok ct
    | None => Raise AttributeError
    end;
  if negb (startswith ct "audio/" || startswith ct "video/")
  then pure_step (Raise (HTTPException 400 (inl "Invalid file type.")))
  else
    pure_step (temporary_copy (base stack) file).

(** The [try] block of [transcribe_audio]. *)
Definition transcribe_body (file : UploadFile) : logged (string * list dict) :=
  audio ← perform CallLoadAudio (load_audio (base stack) (content file));
  result ← perform (CallTranscribe "whisper")
    (transcribe stack "whisper" audio);
  let language_code := result_language result in
  align_model ← perform (CallLoadAlignModel language_code)
    (load_align_model stack language_code);
  result ← perform (CallAlign (result_segments result))
    (align stack (result_segments result) align_model audio);
  result ←
    match diarize_model (base stack) with
    | Some diarize =>
        diarize_segments ← perform CallDiarize (diarize audio);
        perform CallAssignWordSpeakers
          (assign_word_speakers (base stack) diarize_segments result)
    | None => mret result
    end;
  srt_output ← pure_step (generate_srt repr result);
  mret (srt_output, result).

(** [transcribe_audio(file)]; the response is [(srt_content, segments)]. *)
Definition transcribe_audio (file : UploadFile)
  : logged (string * list dict) :=
  _ ← media_upload file;
  catch_all (transcribe_body file)
    (λ e, pure_step (Raise (HTTPException 500 (inr e)))).

(** The [try] block of [resynchronize]. *)
Definition resynchronize_body (file : UploadFile) (transcript : string)
  : logged (string * list dict) :=
  audio ← perform CallLoadAudio (load_audio (base stack) (content file));
  result ← perform (CallTranscribe "whisper_tiny")
    (transcribe stack "whisper_tiny" audio);
  let language_code := result_language result in
  align_model ← perform (CallLoadAlignModel language_code)
    (load_align_model stack language_code);
  let segments := transcript_segments transcript in
  result_aligned ← perform (CallAlign segments)
    (align stack segments align_model audio);
  srt_output ← pure_step (generate_srt repr result_aligned);
  mret (srt_output, result_aligned).

(** [resynchronize(file, transcript)] *)
Definition resynchronize (file : UploadFile) (transcript : string)
  : logged (string * list dict) :=
  _ ← media_upload file;
  catch_all (resynchronize_body file transcript)
    (λ e, pure_step (Raise (HTTPException 500 (inr e)))).

End Transcribe.

(** The number a string of decimal digits writes. *)
Definition digits_value (s : string) : Z :=
  foldl (λ acc c, acc * 10 + (Z.of_nat (nat_of_ascii c) - 48)) 0
    (list_ascii_of_string s).

(** A validated segment whose start and end [format_time] accepts. *)
Definition times_format (m : Segment) : Prop :=
  (∃ start_time, format_time (PFloat (seg_start m)) = Ok start_time) ∧
  (∃ end_time, format_time (PFloat (seg_end m)) = Ok end_time).

(** A speech stack for the examples of [transcribe_audio] and
    [resynchronize]: the large and the tiny model recognise one English
    segment, the alignment model loads, the aligner is [aligner], and the
    diarization pipeline, when there is one, returns [diarization]. *)
Definition example_transcriber (diarization : option (list track))
    (aligner : list dict → result (list dict)) : Transcriber (list track) :=
  {| base :=
       {| Audio := unit;
          json_loads := λ _, Raise JSONDecodeError;
          NamedTemporaryFile := example_NamedTemporaryFile;
          read_error := λ _, None;
          write := λ _, Ok tt;
          load_audio := λ _, Ok tt;
          diarize_model :=
            match diarization with
            | Some d => Some (λ _, Ok d)
            | None => None
            end;
          assign_word_speakers := λ _ segs,
            Ok ((λ d : dict, <["speaker" := PStr "SPEAKER_00"]> d) <$> segs) |};
     AlignModel := unit;
     transcribe := λ _ _,
       Ok {| result_language := "en";
             result_segments :=
               [ {[ "start" := PInt 0; "end" := PInt 1;
                    "text" := PStr "hello" ]} ] |};
     load_align_model := λ _, Ok tt;
     align := λ segs _ _, aligner segs |}.

(** An aligner for the examples: the segment at position [i] gets the
    second from [i] to [i + 1]. *)
Definition one_second_each (segs : list dict) : result (list dict) :=
  Ok (imap (λ i (d : dict),
              <["start" := PInt (Z.of_nat i)]>
                (<["end" := PInt (Z.of_nat i + 1)]> d)) segs).

(** A byte with which no line boundary starts, a line made of such bytes
    only, and the text whose lines are [lines], each ended by a line
    feed. *)
Definition plain_byte (b : N) : bool :=
  negb (bool_decide (b ∈ [10; 11; 12; 13; 28; 29; 30; 194; 226]%N)).

Definition plain_line (line : string) : Prop :=
  Forall (λ b, plain_byte b = true) (bytes_of_string line).

Definition join_lines (lines : list string) : string :=
  foldr (λ line rest, line +:+ nl +:+ rest) "" lines.

(** * Properties *)

(** ** Time Formatter *)

Lemma normalise_fields (w r : Z) :
  let t := w * 1000000 + r in
  let s1 := w mod (24 * 3600) + r / 1000000 in
  s1 mod (24 * 3600) = (t / 1000000) mod 86400 ∧
  w / (24 * 3600) + s1 / (24 * 3600) = t / 86400000000 ∧
  r mod 1000000 = t mod 1000000.
Proof.
  intros t s1. subst t s1. change (24 * 3600) with 86400.
  rewrite Z.div_add_l by lia.
  rewrite Z.add_mod_idemp_l by lia.
  split; [reflexivity|]. split.
  - replace 86400000000 with (1000000 * 86400) by lia.
    rewrite <- Z.div_div by lia. rewrite Z.div_add_l by lia.
    rewrite (Z.div_mod w 86400) at 3 by lia.
    rewrite <- Z.add_assoc, Z.mul_comm, Z.div_add_l by lia. reflexivity.
  - rewrite Z.add_comm, Z.mod_add by lia. reflexivity.
Qed.

Lemma clock_fields (t : Z) :
  ((t / 1000000) mod 86400) / 3600 = (t / 3600000000) mod 24 ∧
  (((t / 1000000) mod 86400) mod 3600) / 60 = (t / 60000000) mod 60 ∧
  (((t / 1000000) mod 86400) mod 3600) mod 60 = (t / 1000000) mod 60 ∧
  (t mod 1000000) / 1000 = (t / 1000) mod 1000.
Proof. repeat split; Z.div_mod_to_equations; lia. Qed.

(** The fields [timedelta] stores, from the microseconds it stands for. *)
Lemma timedelta_fields (x : pyval) (t : Z) :
  total_microseconds x = Ok t →
  Z.abs (t / 86400000000) ≤ 999999999 →
  timedelta x = Ok (t / 86400000000, (t / 1000000) mod 86400, t mod 1000000).
Proof.
  intros Ht Hd.
  assert (∀ w r, t = w * 1000000 + r →
    (let '(days, seconds) := divmod w (24 * 3600) in
     let d := days in
     let s := seconds in
     let '(seconds0, us) := divmod r 1000000 in
     let s0 := s + seconds0 in
     let '(days0, s1) := divmod s0 (24 * 3600) in
     let d0 := d + days0 in
     if 999999999 <? Z.abs d0 then Raise OverflowError else Ok (d0, s1, us))
    = Ok (t / 86400000000, (t / 1000000) mod 86400, t mod 1000000)) as Hnorm.
  { intros w r ->. unfold divmod.
    destruct (normalise_fields w r) as (Hs & Hdays & Hus). cbv zeta in *.
    rewrite Hs, Hdays, Hus.
    destruct (Z.ltb_spec 999999999 (Z.abs ((w * 1000000 + r) / 86400000000)));
      [lia | reflexivity]. }
  destruct x as [ | b | z | f | | | ]; simpl in Ht; try discriminate.
  - injection Ht as <-. unfold timedelta. simpl. apply Hnorm. lia.
  - injection Ht as <-. unfold timedelta. simpl. apply Hnorm. lia.
  - unfold timedelta. simpl.
    destruct (modf f) as [[frac whole] | ]; simpl in *; [ | discriminate].
    destruct (py_round _) as [us | ]; simpl in *; [ | discriminate].
    injection Ht as <-. apply Hnorm. reflexivity.
Qed.

(** What [format_time] prints, from the microseconds of its argument. *)
Lemma format_time_clock (x : pyval) (t : Z) :
  total_microseconds x = Ok t →
  Z.abs (t / 86400000000) ≤ 999999999 →
  format_time x = Ok (clock_of_microseconds t).
Proof.
  intros Ht Hd. unfold format_time.
  rewrite (timedelta_fields x t Ht Hd). simpl. unfold divmod.
  destruct (clock_fields t) as (Hh & Hm & Hs & Hms).
  unfold clock_of_microseconds. rewrite Hh, Hm, Hs, Hms. reflexivity.
Qed.

(** C1.  [format_time] reads [delta.seconds], the seconds within the day,
    and leaves [delta.days] out: 90000 seconds (25 hours) are printed as
    one hour, for an int as for a float, and not as "25:00:00,000". *)
Theorem format_time_wraps_after_24_hours :
  format_time (PInt 90000) = Ok "01:00:00,000" ∧
  format_time (PFloat (float_of_Z 90000)) = Ok "01:00:00,000" ∧
  timedelta (PInt 90000) = Ok (1, 3600, 0) ∧
  timestamp_of_milliseconds 90000000 = "25:00:00,000".
Proof. repeat split; vm_compute; reflexivity. Qed.

(** C3, as stated, fails: 0.0009996 s holds no whole millisecond, yet it
    is printed with one, because [timedelta] first rounds 999.6
    microseconds up to 1000. *)
Lemma format_time_rounds_microseconds_up :
  floor_milliseconds (float_of_ratio 9996 10000000) = Some 0 ∧
  timestamp_of_milliseconds 0 = "00:00:00,000" ∧
  format_time (PFloat (float_of_ratio 9996 10000000)) = Ok "00:00:00,001" ∧
  format_time (PFloat (float_of_ratio 9996 10000000))
    ≠ Ok (timestamp_of_milliseconds 0).
Proof. repeat split; try (vm_compute; reflexivity). vm_compute. discriminate. Qed.

(** C3, amended.  The argument is first taken to whole microseconds (the
    fraction of a float rounded to the nearest one, ties to even); the
    timestamp is the clock reading of that count, its millisecond field
    the whole milliseconds below it ([(t / 1000) mod 1000], never rounded
    up).  So 0 gives "00:00:00,000", 3661.0005 gives "01:01:01,000" and
    86399.999 gives "23:59:59,999". *)
Theorem format_time_floors_whole_microseconds (x : pyval) (t : Z) :
  total_microseconds x = Ok t →
  0 ≤ t < 86400000000000000000 →
  format_time x = Ok (clock_of_microseconds t) ∧
  format_time (PInt 0) = Ok "00:00:00,000" ∧
  format_time (PFloat (float_of_ratio 36610005 10000)) = Ok "01:01:01,000" ∧
  format_time (PFloat (float_of_ratio 86399999 1000)) = Ok "23:59:59,999".
Proof.
  intros Ht Hrange. split.
  - apply format_time_clock; [exact Ht | ].
    assert (0 ≤ t / 86400000000 ≤ 999999999)
      by (Z.div_mod_to_equations; lia).
    lia.
  - repeat split; vm_compute; reflexivity.
Qed.

Lemma format_time_floors_whole_microseconds_witness :
  format_time (PFloat (float_of_ratio 9996 10000000))
    = Ok (clock_of_microseconds 1000) ∧
  format_time (PInt 0) = Ok "00:00:00,000" ∧
  format_time (PFloat (float_of_ratio 36610005 10000)) = Ok "01:01:01,000" ∧
  format_time (PFloat (float_of_ratio 86399999 1000)) = Ok "23:59:59,999".
Proof.
  apply (format_time_floors_whole_microseconds
           (PFloat (float_of_ratio 9996 10000000)) 1000).
  - vm_compute. reflexivity.
  - lia.
Defined.




(** ** Stripping *)

Lemma starts_with_prefix (p bs : list N) :
  starts_with p bs = true ↔ p `prefix_of` bs.
Proof.
  revert bs. induction p as [ | x p IH]; intros bs; simpl.
  - split; [intros _; apply prefix_nil | reflexivity].
  - destruct bs as [ | y bs].
    + split; [discriminate | ]. intros Hp. apply prefix_nil_not in Hp.
      contradiction.
    + rewrite andb_true_iff, N.eqb_eq, IH. split.
      * intros [-> Hp]. apply prefix_cons. exact Hp.
      * intros Hp. split;
          [exact (prefix_cons_inv_1 _ _ _ _ Hp)
          | exact (prefix_cons_inv_2 _ _ _ _ Hp)].
Qed.

(** What [strip_front] removes is a sequence of the patterns, and what it
    leaves starts with none of them. *)
Lemma strip_front_spec (pats : list (list N)) (fuel : nat) (bs : list N) :
  (∀ p, p ∈ pats → p ≠ []) → (length bs ≤ fuel)%nat →
  ∃ ps, Forall (λ p, p ∈ pats) ps ∧
        bs = concat ps ++ strip_front pats fuel bs ∧
        ∀ p, p ∈ pats → ¬ p `prefix_of` strip_front pats fuel bs.
Proof.
  intros Hpats. revert bs. induction fuel as [ | fuel IH]; intros bs Hlen.
  - destruct bs as [ | b bs]; [ | simpl in Hlen; lia].
    exists []. split; [constructor | ]. split; [reflexivity | ].
    intros p Hp Hpre. apply prefix_nil_inv in Hpre.
    exact (Hpats p Hp Hpre).
  - simpl.
    destruct (List.find (λ p, starts_with p bs) pats) as [p | ] eqn:Hfind.
    + apply find_some in Hfind as [Hin Hstart].
      apply list_elem_of_In in Hin.
      apply starts_with_prefix in Hstart as [rest ->].
      rewrite drop_app_length.
      assert (length p ≠ 0)%nat as Hnz.
      { pose proof (Hpats p Hin). destruct p; [contradiction | simpl; lia]. }
      rewrite length_app in Hlen.
      destruct (IH rest ltac:(lia)) as (ps & Hps & Heq & Hnone).
      exists (p :: ps). split; [constructor; assumption | ].
      split; [ | exact Hnone].
      simpl. rewrite <- app_assoc. f_equal. exact Heq.
    + exists []. split; [constructor | ]. split; [reflexivity | ].
      intros p Hp Hpre. apply list_elem_of_In in Hp.
      pose proof (find_none _ _ Hfind p Hp) as Hfalse. simpl in Hfalse.
      apply starts_with_prefix in Hpre. congruence.
Qed.

Lemma whitespace_encodings_nonempty (p : list N) :
  p ∈ whitespace_encodings → p ≠ [].
Proof.
  intros Hp Hnil. apply list_elem_of_fmap in Hp as (c & Heq & _).
  subst p. unfold utf8_encode in Hnil.
  destruct (c <? 128)%N; [discriminate | ].
  destruct (c <? 2048)%N; [discriminate | ].
  destruct (c <? 65536)%N; discriminate.
Qed.

Lemma whitespace_run_of_encodings (ps : list (list N)) :
  Forall (λ p, p ∈ whitespace_encodings) ps → whitespace_run (concat ps).
Proof.
  induction 1 as [ | p ps Hp _ (cs & Hcs & Heq)].
  - exists []. split; [constructor | reflexivity].
  - apply list_elem_of_fmap in Hp as (c & -> & Hc).
    exists (c :: cs). split; [constructor; assumption | ].
    simpl. rewrite Heq. reflexivity.
Qed.

Lemma bytes_of_string_bounded (s : string) :
  Forall (λ b, (b < 256)%N) (bytes_of_string s).
Proof.
  unfold bytes_of_string. apply Forall_fmap, Forall_true.
  intros a. apply N_ascii_bounded.
Qed.

Lemma bytes_of_string_of_bytes (bs : list N) :
  Forall (λ b, (b < 256)%N) bs → bytes_of_string (string_of_bytes bs) = bs.
Proof.
  unfold bytes_of_string, string_of_bytes.
  induction 1 as [ | b bs Hb _ IH]; [reflexivity | ].
  cbn [fmap list_fmap string_of_list_ascii list_ascii_of_string].
  cbn [fmap list_fmap] in IH. rewrite IH, N_ascii_embedding by exact Hb.
  reflexivity.
Qed.

(** [str.strip] removes a run of whitespace at each end and leaves a text
    with no whitespace at either end. *)
Lemma py_strip_strips (text : string) : strips_to text (py_strip text).
Proof.
  unfold strips_to, py_strip.
  set (bs := bytes_of_string text).
  destruct (strip_front_spec whitespace_encodings (length bs) bs
              whitespace_encodings_nonempty (le_n _))
    as (ps & Hps & Hfront & Hnone_front).
  set (front := strip_front whitespace_encodings (length bs) bs) in *.
  assert (∀ p, p ∈ reverse <$> whitespace_encodings → p ≠ []) as Hrev.
  { intros p Hp Hnil. apply list_elem_of_fmap in Hp as (w & -> & Hw).
    apply (whitespace_encodings_nonempty w Hw).
    rewrite <- (reverse_involutive w), Hnil. reflexivity. }
  destruct (strip_front_spec (reverse <$> whitespace_encodings)
              (length front) (reverse front) Hrev)
    as (qs & Hqs & Hback & Hnone_back).
  { rewrite length_reverse. reflexivity. }
  set (back := strip_front (reverse <$> whitespace_encodings)
                 (length front) (reverse front)) in *.
  assert (front = reverse back ++ concat (reverse (reverse <$> qs)))
    as Hfront_split.
  { rewrite <- (reverse_involutive front), Hback, reverse_app. f_equal.
    clear. induction qs as [ | q qs IH]; [reflexivity | ].
    cbn [concat fmap list_fmap]. rewrite reverse_app, IH, reverse_cons.
    rewrite concat_app. simpl. rewrite app_nil_r. reflexivity. }
  assert (Forall (λ b, (b < 256)%N) (reverse back)) as Hbounded.
  { pose proof (bytes_of_string_bounded text) as Hall. fold bs in Hall.
    rewrite Hfront, Hfront_split in Hall.
    apply Forall_app in Hall as [_ Hall].
    apply Forall_app in Hall as [Hall _]. exact Hall. }
  rewrite (bytes_of_string_of_bytes _ Hbounded).
  exists (concat ps), (concat (reverse (reverse <$> qs))).
  split; [rewrite Hfront at 1; rewrite Hfront_split at 1; reflexivity | ].
  split; [apply whitespace_run_of_encodings; exact Hps | ].
  split.
  { apply whitespace_run_of_encodings. apply Forall_reverse.
    apply Forall_fmap. eapply Forall_impl; [exact Hqs | ].
    intros q Hq. simpl.
    apply list_elem_of_fmap in Hq as (w & -> & Hw).
    rewrite reverse_involutive. exact Hw. }
  intros c Hc.
  assert (utf8_encode c ∈ whitespace_encodings) as Hw
    by (apply list_elem_of_fmap_2; exact Hc).
  split.
  - intros Hpre. apply (Hnone_front (utf8_encode c) Hw).
    rewrite Hfront_split. apply prefix_app_r. exact Hpre.
  - intros Hsuf. apply suffix_prefix_reverse in Hsuf.
    rewrite reverse_involutive in Hsuf.
    apply (Hnone_back (reverse (utf8_encode c))); [ | exact Hsuf].
    apply list_elem_of_fmap_2. exact Hw.
Qed.

(** ** Subtitle Renderer *)

Section Renderer.

Variable repr : pyval → string.

Lemma generate_srt_from_app (i : nat) (l1 l2 : list dict) (acc : string) :
  generate_srt_from repr i (l1 ++ l2) acc =
  acc' ← generate_srt_from repr i l1 acc;
  generate_srt_from repr (i + length l1) l2 acc'.
Proof.
  revert i acc. induction l1 as [ | seg l1 IH]; intros i acc; simpl.
  - rewrite Nat.add_0_r. reflexivity.
  - destruct (srt_cue repr i seg) as [cue | e]; simpl; [ | reflexivity].
    rewrite IH.
    replace (S i + length l1)%nat with (i + S (length l1))%nat by lia.
    reflexivity.
Qed.

Lemma srt_cue_ok (i : nat) (segment : dict) (start end_ : pyval)
    (start_time end_time text : string) :
  segment !! "start" = Some start → format_time start = Ok start_time →
  segment !! "end" = Some end_ → format_time end_ = Ok end_time →
  segment !! "text" = Some (PStr text) →
  srt_cue repr i segment =
    Ok (cue_block (i + 1) start_time end_time (text_line repr segment text)).
Proof.
  intros Hs Hst He Het Ht. unfold srt_cue, getitem, text_line, cue_block.
  rewrite Hs. simpl. rewrite Hst. simpl. rewrite He. simpl. rewrite Het.
  simpl. rewrite Ht. simpl.
  destruct (segment !! "speaker") as [sp | ]; simpl.
  - destruct (decide (is_Some (Some sp))) as [ | Hn]; [reflexivity | ].
    exfalso. apply Hn. eauto.
  - destruct (decide (is_Some (@None pyval))) as [[? Hx] | ];
      [discriminate | reflexivity].
Qed.

(** The renderer's output for a sequence extended by one renderable
    segment: the output so far, then that segment's cue. *)
Lemma generate_srt_snoc (before : list dict) (out : string) (segment : dict)
    (start end_ : pyval) (start_time end_time text : string) :
  generate_srt repr before = Ok out →
  segment !! "start" = Some start → format_time start = Ok start_time →
  segment !! "end" = Some end_ → format_time end_ = Ok end_time →
  segment !! "text" = Some (PStr text) →
  generate_srt repr (before ++ [segment]) =
    Ok (out +:+ cue_block (length before + 1) start_time end_time
                  (text_line repr segment text)).
Proof.
  intros Hout Hs Hst He Het Ht. unfold generate_srt in *.
  rewrite generate_srt_from_app, Hout. simpl.
  rewrite (srt_cue_ok _ _ _ _ _ _ _ Hs Hst He Het Ht). reflexivity.
Qed.

(** C4.  Wherever a renderable segment stands in the sequence, its cue
    ends the output so far with the index, the time range and a text
    line.  When the segment has the key ["speaker"] the line is the
    speaker between brackets, a colon, a space and the stripped text: a
    name as it is, the empty string as ["[]: "], [None] as ["[None]: "].
    When it has not, the line is the stripped text alone, whatever the
    text starts with.  The stripped text is the text without the run of
    whitespace at its front and the one at its back, with no whitespace
    left at either end. *)
Theorem srt_line_has_prefix_iff_speaker_present (before : list dict)
    (out : string) (segment : dict) (start end_ : pyval)
    (start_time end_time text : string) :
  generate_srt repr before = Ok out →
  segment !! "start" = Some start → format_time start = Ok start_time →
  segment !! "end" = Some end_ → format_time end_ = Ok end_time →
  segment !! "text" = Some (PStr text) →
  generate_srt repr (before ++ [segment]) =
    Ok (out +:+ cue_block (length before + 1) start_time end_time
                  (text_line repr segment text)) ∧
  strips_to text (py_strip text) ∧
  (∀ name, segment !! "speaker" = Some (PStr name) →
     text_line repr segment text = "[" +:+ name +:+ "]: " +:+ py_strip text) ∧
  (segment !! "speaker" = Some (PStr "") →
     text_line repr segment text = "[]: " +:+ py_strip text) ∧
  (segment !! "speaker" = Some PNone →
     text_line repr segment text = "[None]: " +:+ py_strip text) ∧
  (∀ speaker, segment !! "speaker" = Some speaker →
     text_line repr segment text
       = "[" +:+ py_str repr speaker +:+ "]: " +:+ py_strip text) ∧
  (segment !! "speaker" = None →
     text_line repr segment text = py_strip text) ∧
  py_strip "  hi there  " = "hi there" ∧
  py_strip " [hi] " = "[hi]" ∧
  py_strip (String "009" ("a  b" +:+ nl)) = "a  b" ∧
  py_strip (string_of_bytes [194; 160; 104; 105; 227; 128; 128]%N) = "hi" ∧
  py_strip "   " = "".
Proof.
  intros Hout Hs Hst He Het Ht.
  split.
  { apply (generate_srt_snoc before out segment start end_); assumption. }
  split; [apply py_strip_strips | ].
  unfold text_line. repeat split; try (vm_compute; reflexivity).
  - intros name ->. reflexivity.
  - intros ->. reflexivity.
  - intros ->. reflexivity.
  - intros speaker ->. reflexivity.
  - intros ->. reflexivity.
Qed.

End Renderer.

(** A named speaker, an empty speaker and no speaker, each with a text
    that has whitespace around it. *)
Lemma srt_line_has_prefix_iff_speaker_present_witness :
  generate_srt (λ _, "")
    ([] ++ [ {[ "start" := PInt 0; "end" := PInt 1;
                "text" := PStr "  hi there  ";
                "speaker" := PStr "Alice" ]} ])
    = Ok ("" +:+ cue_block 1 "00:00:00,000" "00:00:01,000"
                   "[Alice]: hi there") ∧
  generate_srt (λ _, "")
    ([] ++ [ {[ "start" := PInt 0; "end" := PInt 1;
                "text" := PStr "  hi there  "; "speaker" := PStr "" ]} ])
    = Ok ("" +:+ cue_block 1 "00:00:00,000" "00:00:01,000" "[]: hi there") ∧
  generate_srt (λ _, "")
    ([] ++ [ {[ "start" := PInt 0; "end" := PInt 1;
                "text" := PStr " [hi] " ]} ])
    = Ok ("" +:+ cue_block 1 "00:00:00,000" "00:00:01,000" "[hi]").
Proof.
  split; [ | split].
  - destruct (srt_line_has_prefix_iff_speaker_present (λ _, "") [] ""
                {[ "start" := PInt 0; "end" := PInt 1;
                   "text" := PStr "  hi there  ";
                   "speaker" := PStr "Alice" ]}
                (PInt 0) (PInt 1) "00:00:00,000" "00:00:01,000"
                "  hi there  ") as [Hcue _];
      [vm_compute; reflexivity .. | exact Hcue].
  - destruct (srt_line_has_prefix_iff_speaker_present (λ _, "") [] ""
                {[ "start" := PInt 0; "end" := PInt 1;
                   "text" := PStr "  hi there  "; "speaker" := PStr "" ]}
                (PInt 0) (PInt 1) "00:00:00,000" "00:00:01,000"
                "  hi there  ") as [Hcue _];
      [vm_compute; reflexivity .. | exact Hcue].
  - destruct (srt_line_has_prefix_iff_speaker_present (λ _, "") [] ""
                {[ "start" := PInt 0; "end" := PInt 1;
                   "text" := PStr " [hi] " ]}
                (PInt 0) (PInt 1) "00:00:00,000" "00:00:01,000" " [hi] ")
      as [Hcue _];
      [vm_compute; reflexivity .. | exact Hcue].
Defined.

(** ** Rename Speakers *)

Lemma model_dump_speaker (m : Segment) :
  model_dump m !! "speaker" = Some (from_option PStr PNone (seg_speaker m)).
Proof. unfold model_dump. by simplify_map_eq. Qed.

Lemma model_dump_start (m : Segment) :
  model_dump m !! "start" = Some (PFloat (seg_start m)).
Proof. unfold model_dump. by simplify_map_eq. Qed.

Lemma model_dump_end (m : Segment) :
  model_dump m !! "end" = Some (PFloat (seg_end m)).
Proof. unfold model_dump. by simplify_map_eq. Qed.

Lemma model_dump_text (m : Segment) :
  model_dump m !! "text" = Some (PStr (seg_text m)).
Proof. unfold model_dump. by simplify_map_eq. Qed.

(** The loop body only ever rewrites the key ["speaker"]. *)
Lemma rename_segment_insert (speaker_map : gmap string string) (m : Segment) :
  rename_segment speaker_map m =
  <["speaker" := from_option PStr PNone
                   (renamed_speaker speaker_map (seg_speaker m))]>
    (model_dump m).
Proof.
  unfold rename_segment, renamed_speaker. rewrite model_dump_speaker.
  destruct (seg_speaker m) as [old | ] eqn:Hsp; simpl.
  - destruct (speaker_map !! old) as [new_name | ].
    + destruct (decide (new_name = "")) as [-> | Hne].
      * simpl. symmetry. apply insert_id. rewrite model_dump_speaker, Hsp.
        reflexivity.
      * destruct new_name; [contradiction | reflexivity].
    + symmetry. apply insert_id. rewrite model_dump_speaker, Hsp. reflexivity.
  - symmetry. apply insert_id. rewrite model_dump_speaker, Hsp. reflexivity.
Qed.

(** What the handler answers with: the renamed segments and their
    rendering. *)
Lemma rename_speakers_response (repr : pyval → string)
    (request : RenameSpeakersRequest) (srt : string) (segs : list dict) :
  rename_speakers repr request = Ok (srt, segs) →
  segs = updated_segments request ∧
  generate_srt repr (updated_segments request) = Ok srt.
Proof.
  unfold rename_speakers.
  destruct (generate_srt repr (updated_segments request)) as [new_srt | e];
    simpl; [ | discriminate].
  intros [= -> ->]. split; reflexivity.
Qed.

(** C8.  The segment [rename_speakers] returns at each position is the
    dump of the request's segment with only the speaker possibly changed:
    to [speaker_map[speaker]] when the speaker is a key of the map and the
    mapped name is not empty; a speaker that is no key of the map, or is
    mapped to the empty string, or is [None], stays as it was. *)
Theorem rename_replaces_speaker_iff_mapped_nonempty
    (request : RenameSpeakersRequest) (i : nat) (m : Segment) :
  segments request !! i = Some m →
  ∃ d,
    updated_segments request !! i = Some d ∧
    (∀ repr srt segs,
       rename_speakers repr request = Ok (srt, segs) → segs !! i = Some d) ∧
    (∀ key, key ≠ "speaker" → d !! key = model_dump m !! key) ∧
    d !! "speaker" =
      Some (from_option PStr PNone
              (renamed_speaker (speaker_map request) (seg_speaker m))) ∧
    (∀ old new_name,
       seg_speaker m = Some old →
       speaker_map request !! old = Some new_name → new_name ≠ "" →
       d !! "speaker" = Some (PStr new_name)) ∧
    (∀ old,
       seg_speaker m = Some old →
       speaker_map request !! old = None ∨ speaker_map request !! old = Some "" →
       d = model_dump m ∧ d !! "speaker" = Some (PStr old)) ∧
    (seg_speaker m = None → d = model_dump m ∧ d !! "speaker" = Some PNone).
Proof.
  intros Hm. exists (rename_segment (speaker_map request) m).
  assert (updated_segments request !! i
          = Some (rename_segment (speaker_map request) m)) as Hd.
  { unfold updated_segments. rewrite list_lookup_fmap, Hm. reflexivity. }
  split; [exact Hd | ].
  split.
  { intros repr srt segs Hresp.
    apply rename_speakers_response in Hresp as [-> _]. exact Hd. }
  split.
  { intros key Hkey. rewrite rename_segment_insert.
    rewrite lookup_insert_ne by congruence. reflexivity. }
  split.
  { rewrite rename_segment_insert. apply lookup_insert_eq. }
  split.
  { intros old new_name Hold Hmap Hne. rewrite rename_segment_insert.
    rewrite lookup_insert_eq. unfold renamed_speaker. rewrite Hold, Hmap.
    destruct (decide (new_name = "")); [contradiction | reflexivity]. }
  split.
  { intros old Hold Hmap.
    assert (renamed_speaker (speaker_map request) (seg_speaker m) = Some old)
      as Hsame.
    { unfold renamed_speaker. rewrite Hold.
      destruct Hmap as [-> | ->]; [reflexivity | ].
      destruct (decide ("" = "")); [reflexivity | contradiction]. }
    rewrite rename_segment_insert, Hsame. simpl. split.
    - apply insert_id. rewrite model_dump_speaker, Hold. reflexivity.
    - apply lookup_insert_eq. }
  { intros Hnone. rewrite rename_segment_insert, Hnone. simpl. split.
    - apply insert_id. rewrite model_dump_speaker, Hnone. reflexivity.
    - apply lookup_insert_eq. }
Qed.

(** The request of the example: one [SPEAKER_00] segment, and a map that
    sends [SPEAKER_00] to the empty string. *)
Lemma rename_replaces_speaker_iff_mapped_nonempty_witness :
  let m := Segment_init (float_of_Z 0) (float_of_ratio 3 2) "hi"
             (Some (Some "SPEAKER_00")) in
  let request := {| segments := [m];
                    speaker_map := {[ "SPEAKER_00" := "" ]} |} in
  ∃ d,
    updated_segments request !! 0%nat = Some d ∧
    (∀ repr srt segs,
       rename_speakers repr request = Ok (srt, segs) →
       segs !! 0%nat = Some d) ∧
    (∀ key, key ≠ "speaker" → d !! key = model_dump m !! key) ∧
    d !! "speaker" =
      Some (from_option PStr PNone
              (renamed_speaker (speaker_map request) (seg_speaker m))) ∧
    (∀ old new_name,
       seg_speaker m = Some old →
       speaker_map request !! old = Some new_name → new_name ≠ "" →
       d !! "speaker" = Some (PStr new_name)) ∧
    (∀ old,
       seg_speaker m = Some old →
       speaker_map request !! old = None ∨ speaker_map request !! old = Some "" →
       d = model_dump m ∧ d !! "speaker" = Some (PStr old)) ∧
    (seg_speaker m = None → d = model_dump m ∧ d !! "speaker" = Some PNone).
Proof.
  intros m request.
  apply (rename_replaces_speaker_iff_mapped_nonempty request 0 m).
  reflexivity.
Defined.

(** C10.  Every segment [rename_speakers] produces has the key
    ["speaker"]: [model_dump] writes every declared field, and a speaker
    the payload left out is the default [None].  The renderer therefore
    puts the bracket prefix on each of them, and the cue of a segment
    that came without a speaker reads ["[None]: "] and its stripped
    text. *)
Theorem renamed_segments_always_have_speaker_key
    (repr : pyval → string) (request : RenameSpeakersRequest)
    (i : nat) (m : Segment) (start_time end_time out : string) :
  segments request !! i = Some m →
  format_time (PFloat (seg_start m)) = Ok start_time →
  format_time (PFloat (seg_end m)) = Ok end_time →
  generate_srt repr (take i (updated_segments request)) = Ok out →
  (∀ srt segs d,
     rename_speakers repr request = Ok (srt, segs) →
     d ∈ segs → is_Some (d !! "speaker")) ∧
  (∀ d, d ∈ updated_segments request → is_Some (d !! "speaker")) ∧
  (∀ start end_ text,
     seg_speaker (Segment_init start end_ text None) = None) ∧
  ∃ label,
    generate_srt repr (take (S i) (updated_segments request)) =
      Ok (out +:+ cue_block (i + 1) start_time end_time
                    ("[" +:+ label +:+ "]: " +:+ py_strip (seg_text m))) ∧
    (seg_speaker m = None → label = "None").
Proof.
  intros Hm Hst Het Hout.
  assert (updated_segments request !! i
          = Some (rename_segment (speaker_map request) m)) as Hd.
  { unfold updated_segments. rewrite list_lookup_fmap, Hm. reflexivity. }
  assert (∀ d, d ∈ updated_segments request → is_Some (d !! "speaker"))
    as Hkey.
  { intros d Hin. unfold updated_segments in Hin.
    apply list_elem_of_fmap in Hin as (m' & -> & _).
    rewrite rename_segment_insert, lookup_insert_eq. eauto. }
  split.
  { intros srt segs d Hresp Hin.
    apply rename_speakers_response in Hresp as [-> _]. auto. }
  split; [exact Hkey | ].
  split; [reflexivity | ].
  set (sp := from_option PStr PNone
               (renamed_speaker (speaker_map request) (seg_speaker m))).
  exists (py_str repr sp). split.
  - rewrite (take_S_r _ _ _ Hd).
    pose proof (lookup_lt_Some _ _ _ Hd) as Hlen.
    rewrite (generate_srt_snoc repr _ out _
               (PFloat (seg_start m)) (PFloat (seg_end m))
               start_time end_time (seg_text m)); try assumption.
    + rewrite length_take, Nat.min_l by lia.
      unfold text_line. rewrite rename_segment_insert, lookup_insert_eq.
      reflexivity.
    + rewrite rename_segment_insert, lookup_insert_ne by done.
      apply model_dump_start.
    + rewrite rename_segment_insert, lookup_insert_ne by done.
      apply model_dump_end.
    + rewrite rename_segment_insert, lookup_insert_ne by done.
      apply model_dump_text.
  - intros Hnone. subst sp. rewrite Hnone. reflexivity.
Qed.

(** A request with a single segment whose payload had no speaker. *)
Lemma renamed_segments_always_have_speaker_key_witness :
  let m := Segment_init (float_of_Z 0) (float_of_ratio 3 2) " hi " None in
  let request := {| segments := [m];
                    speaker_map := {[ "SPEAKER_00" := "Alice" ]} |} in
  (∀ srt segs d,
     rename_speakers (λ _, "") request = Ok (srt, segs) →
     d ∈ segs → is_Some (d !! "speaker")) ∧
  (∀ d, d ∈ updated_segments request → is_Some (d !! "speaker")) ∧
  (∀ start end_ text,
     seg_speaker (Segment_init start end_ text None) = None) ∧
  ∃ label,
    generate_srt (λ _, "") (take 1 (updated_segments request)) =
      Ok ("" +:+ cue_block (0 + 1) "00:00:00,000" "00:00:01,500"
                   ("[" +:+ label +:+ "]: " +:+ py_strip (seg_text m))) ∧
    (seg_speaker m = None → label = "None").
Proof.
  intros m request.
  apply (renamed_segments_always_have_speaker_key (λ _, "") request 0 m
           "00:00:00,000" "00:00:01,500" "");
    vm_compute; reflexivity.
Defined.

(** ** Speaker Reconciler *)

(** [>] on floats cannot hold both ways. *)
Lemma SFltb_asym (a b : spec_float) : SFltb a b = true → SFltb b a = false.
Proof.
  unfold SFltb.
  destruct a as [sa | sa | | sa ma ea], b as [sb | sb | | sb mb eb]; simpl;
    try destruct sa; try destruct sb; simpl; try discriminate; try reflexivity.
  all: rewrite (Z.compare_antisym ea eb);
    destruct (ea ?= eb)%Z eqn:He; simpl; try discriminate; try reflexivity.
  all: change (Pos.compare_cont Eq mb ma) with (Pos.compare mb ma);
       change (Pos.compare_cont Eq ma mb) with (Pos.compare ma mb);
       rewrite (Pos.compare_antisym ma mb);
       destruct (ma ?= mb)%positive; simpl; try discriminate; try reflexivity.
Qed.

(** [max] returns the key whose value exceeds every other key's. *)
Lemma max_from_dominant (key : string → spec_float) (l best : string)
    (ls : list string) :
  l ∈ best :: ls →
  (∀ l', l' ∈ best :: ls → l' ≠ l → SFltb (key l') (key l) = true) →
  max_from (best, key best) ((λ x, (x, key x)) <$> ls) = l.
Proof.
  revert best. induction ls as [ | x ls IH]; intros best Hin Hmax; simpl.
  - apply list_elem_of_singleton in Hin. congruence.
  - assert (x ∈ best :: x :: ls) as Hx_in
      by (apply list_elem_of_further, list_elem_of_here).
    assert (best ∈ best :: x :: ls) as Hbest_in by apply list_elem_of_here.
    apply elem_of_cons in Hin as [Hbest | Hin].
    + (* the dominant label is the best so far: nothing later exceeds it *)
      subst best.
      assert (SFltb (key l) (key x) = false) as ->.
      { destruct (decide (x = l)) as [-> | Hne].
        - destruct (SFltb (key l) (key l)) eqn:Hlt; [ | reflexivity].
          rewrite (SFltb_asym _ _ Hlt) in Hlt. discriminate.
        - apply SFltb_asym, Hmax; assumption. }
      apply IH; [apply list_elem_of_here | ].
      intros l' Hl' Hne. apply Hmax; [ | assumption].
      apply elem_of_cons in Hl' as [-> | Hl']; [assumption | ].
      do 2 apply list_elem_of_further. assumption.
    + destruct (SFltb (key best) (key x)) eqn:Hlt.
      * apply IH; [assumption | ].
        intros l' Hl' Hne. apply Hmax; [ | assumption].
        apply list_elem_of_further. assumption.
      * apply elem_of_cons in Hin as [-> | Hin].
        -- destruct (decide (best = x)) as [-> | Hne].
           ++ apply IH; [apply list_elem_of_here | ].
              intros l' Hl' Hne. apply Hmax; [ | assumption].
              apply list_elem_of_further. assumption.
           ++ rewrite (Hmax best Hbest_in Hne) in Hlt. discriminate.
        -- apply IH; [apply list_elem_of_further; assumption | ].
           intros l' Hl' Hne. apply Hmax; [ | assumption].
           apply elem_of_cons in Hl' as [-> | Hl']; [assumption | ].
           do 2 apply list_elem_of_further. assumption.
Qed.

Section ReconcilerProperties.

Context {A : Type} `{Annotation A}.

Lemma dominant_ai_speaker_strict_max (overlap : A) (l : string) :
  l ∈ labels overlap →
  (∀ l', l' ∈ labels overlap → l' ≠ l →
     SFltb (label_duration overlap l') (label_duration overlap l) = true) →
  dominant_ai_speaker overlap = Some l.
Proof.
  unfold dominant_ai_speaker. intros Hin Hmax.
  destruct (labels overlap) as [ | best ls];
    [apply elem_of_nil in Hin; contradiction | ]. simpl.
  f_equal. apply (max_from_dominant (label_duration overlap)); assumption.
Qed.

(** What one pass of the loop does for a segment that carries a
    hand-assigned name and both bounds. *)
Lemma reconcile_segment_named (diar : A) (speaker_map : gmap string string)
    (d : dict) (name : string) (start end_ : pyval) :
  d !! "speaker" = Some (PStr name) → name ≠ "" →
  startswith name "SPEAKER_" = false →
  d !! "start" = Some start → d !! "end" = Some end_ →
  reconcile_segment diar speaker_map (PDict d) =
    overlap ← crop diar start end_;
    if nonempty overlap then
      match dominant_ai_speaker overlap with
      | Some dominant =>
          if decide (is_Some (speaker_map !! dominant)) then Ok speaker_map
          else Ok (<[dominant := name]> speaker_map)
      | None => Ok speaker_map
      end
    else Ok speaker_map.
Proof.
  intros Hsp Hne Hauto Hs He.
  assert (truthy (PStr name) = true) as Htruthy
    by (destruct name; [contradiction | reflexivity]).
  unfold reconcile_segment, py_get, py_getitem, getitem.
  rewrite Hsp. cbn [default from_option id mbind result_bind].
  rewrite Htruthy. cbn [negb]. rewrite Hauto, Hs, He. reflexivity.
Qed.

(** One pass of the loop leaves the map alone or adds one new key. *)
Lemma reconcile_segment_cases (diar : A) (speaker_map m' : gmap string string)
    (segment : pyval) :
  reconcile_segment diar speaker_map segment = Ok m' →
  m' = speaker_map ∨
  ∃ dominant name,
    speaker_map !! dominant = None ∧ m' = <[dominant := name]> speaker_map.
Proof.
  unfold reconcile_segment. intros Hstep.
  destruct (py_get segment "speaker") as [speaker_name | ]; simpl in Hstep;
    [ | discriminate].
  destruct (truthy speaker_name); simpl in Hstep; [ | left; congruence].
  destruct speaker_name as [ | | | | name | | ]; try discriminate.
  destruct (startswith name "SPEAKER_"); [left; congruence | ].
  destruct (py_getitem segment "start"); simpl in Hstep; [ | discriminate].
  destruct (py_getitem segment "end"); simpl in Hstep; [ | discriminate].
  destruct (crop diar _ _) as [overlap | ]; simpl in Hstep; [ | discriminate].
  destruct (nonempty overlap); [ | left; congruence].
  destruct (dominant_ai_speaker overlap) as [dominant | ];
    [ | left; congruence].
  destruct (decide (is_Some (speaker_map !! dominant))) as [ | Hnew];
    [left; congruence | ].
  right. exists dominant, name. split; [ | congruence].
  apply eq_None_not_Some. exact Hnew.
Qed.

Lemma build_speaker_map_from_app (diar : A) (speaker_map : gmap string string)
    (l1 l2 : list pyval) :
  build_speaker_map_from diar speaker_map (l1 ++ l2) =
  speaker_map' ← build_speaker_map_from diar speaker_map l1;
  build_speaker_map_from diar speaker_map' l2.
Proof.
  revert speaker_map. induction l1 as [ | seg l1 IH]; intros speaker_map;
    simpl; [reflexivity | ].
  destruct (reconcile_segment diar speaker_map seg); simpl;
    [apply IH | reflexivity].
Qed.

(** Entries of the map are never removed nor changed by the loop. *)
Lemma build_speaker_map_from_keeps (diar : A)
    (speaker_map final : gmap string string) (user_segments : list pyval)
    (label name : string) :
  speaker_map !! label = Some name →
  build_speaker_map_from diar speaker_map user_segments = Ok final →
  final !! label = Some name.
Proof.
  revert speaker_map. induction user_segments as [ | seg segs IH];
    intros speaker_map Hl Hloop; simpl in Hloop.
  - congruence.
  - destruct (reconcile_segment diar speaker_map seg) as [m' | ] eqn:Hstep;
      simpl in Hloop; [ | discriminate].
    apply (IH m'); [ | exact Hloop].
    apply reconcile_segment_cases in Hstep
      as [-> | (dominant & name' & Hfresh & ->)]; [exact Hl | ].
    rewrite lookup_insert_ne by congruence. exact Hl.
Qed.

End ReconcilerProperties.

(** C2, as stated, fails: a hand-assigned name is not mapped when its
    dominant label has been mapped before.  After "Alice" from 2 to 7,
    the segment "Bob" from 3 to 6 overlaps SPEAKER_00 for 2 s and
    SPEAKER_01 for 1 s, so SPEAKER_00 is its dominant label; the map
    keeps SPEAKER_00 for "Alice", and no label is mapped to "Bob". *)
Lemma later_hand_assigned_name_is_not_mapped :
  (∃ cropped,
     crop example_diarization (PInt 3) (PInt 6) = Ok cropped ∧
     labels cropped = ["SPEAKER_00"; "SPEAKER_01"] ∧
     label_duration cropped "SPEAKER_00" = float_of_Z 2 ∧
     label_duration cropped "SPEAKER_01" = float_of_Z 1 ∧
     dominant_ai_speaker cropped = Some "SPEAKER_00") ∧
  ∃ m,
    build_speaker_map example_diarization
      (PList [user_segment 2 7 "hello" "Alice"; user_segment 3 6 "hi" "Bob"])
      = Ok m ∧
    m = {[ "SPEAKER_00" := "Alice" ]} ∧
    ∀ label, m !! label ≠ Some "Bob".
Proof.
  split.
  - eexists. repeat split; vm_compute; reflexivity.
  - exists {[ "SPEAKER_00" := "Alice" ]}.
    split; [vm_compute; reflexivity | ]. split; [reflexivity | ].
    intros label.
    destruct (decide (label = "SPEAKER_00")) as [-> | Hne].
    + rewrite lookup_singleton_eq. discriminate.
    + rewrite lookup_singleton_ne by congruence. discriminate.
Qed.

(** C2, amended.  A user segment with a hand-assigned name, whose span
    the diarization overlaps with one label of strictly greater total
    duration than every other, has that label as its dominant one.  The
    loop maps the label to the name when the label is not mapped yet, and
    leaves the map as it is when an earlier segment has mapped it; so
    after the loop the label is mapped, to this name if the segment was
    the first with that dominant label.  Alone, the segment yields
    exactly that one entry.  In the example, [0,5] SPEAKER_00 and [5,10]
    SPEAKER_01 against the user segment [2,7] "Alice" overlap for 3 s
    and 2 s, and the map is SPEAKER_00 to "Alice", with no entry for
    SPEAKER_01. *)
Theorem hand_assigned_name_goes_to_dominant_label
    {A : Type} `{Annotation A} (diar : A)
    (speaker_map : gmap string string) (d : dict) (name : string)
    (start end_ : pyval) (overlap : A) (l : string) :
  d !! "speaker" = Some (PStr name) → name ≠ "" →
  startswith name "SPEAKER_" = false →
  d !! "start" = Some start → d !! "end" = Some end_ →
  crop diar start end_ = Ok overlap → nonempty overlap = true →
  l ∈ labels overlap →
  (∀ l', l' ∈ labels overlap → l' ≠ l →
     SFltb (label_duration overlap l') (label_duration overlap l) = true) →
  dominant_ai_speaker overlap = Some l ∧
  (speaker_map !! l = None →
   reconcile_segment diar speaker_map (PDict d)
     = Ok (<[l := name]> speaker_map)) ∧
  (is_Some (speaker_map !! l) →
   reconcile_segment diar speaker_map (PDict d) = Ok speaker_map) ∧
  (∀ before after earlier final,
     build_speaker_map_from diar ∅ before = Ok earlier →
     build_speaker_map diar (PList (before ++ PDict d :: after)) = Ok final →
     final !! l = Some (default name (earlier !! l))) ∧
  build_speaker_map diar (PList [PDict d]) = Ok {[ l := name ]} ∧
  (∃ cropped,
     crop example_diarization (PInt 2) (PInt 7) = Ok cropped ∧
     label_duration cropped "SPEAKER_00" = float_of_Z 3 ∧
     label_duration cropped "SPEAKER_01" = float_of_Z 2) ∧
  (∃ m,
     build_speaker_map example_diarization
       (PList [user_segment 2 7 "hello" "Alice"]) = Ok m ∧
     m !! "SPEAKER_00" = Some "Alice" ∧ m !! "SPEAKER_01" = None).
Proof.
  intros Hsp Hne Hauto Hs He Hcrop Hnonempty Hin Hmax.
  pose proof (dominant_ai_speaker_strict_max overlap l Hin Hmax) as Hdom.
  assert (∀ m : gmap string string,
            reconcile_segment diar m (PDict d) =
              if decide (is_Some (m !! l)) then Ok m
              else Ok (<[l := name]> m))
    as Hstep.
  { intros m.
    rewrite (reconcile_segment_named diar m d name start end_)
      by assumption.
    rewrite Hcrop. cbn [mbind result_bind]. rewrite Hnonempty, Hdom.
    reflexivity. }
  split; [exact Hdom | ].
  split.
  { intros Hfresh. rewrite Hstep.
    destruct (decide (is_Some (speaker_map !! l))) as [[? Hsome] | ];
      [congruence | reflexivity]. }
  split.
  { intros Hmapped. rewrite Hstep.
    destruct (decide (is_Some (speaker_map !! l))); [reflexivity | ].
    contradiction. }
  split.
  { intros before after earlier final Hbefore. unfold build_speaker_map.
    cbn [py_iter mbind result_bind].
    rewrite build_speaker_map_from_app, Hbefore.
    cbn [mbind result_bind build_speaker_map_from]. rewrite Hstep.
    destruct (decide (is_Some (earlier !! l))) as [[n Hn] | Hfresh];
      cbn [mbind result_bind]; intros Hrest.
    - rewrite Hn. cbn [default from_option].
      exact (build_speaker_map_from_keeps diar earlier final after l n
               Hn Hrest).
    - apply eq_None_not_Some in Hfresh. rewrite Hfresh.
      cbn [default from_option].
      apply (build_speaker_map_from_keeps diar (<[l := name]> earlier) final
               after l name); [ | exact Hrest].
      apply lookup_insert_eq. }
  split.
  { unfold build_speaker_map. cbn [py_iter mbind result_bind].
    cbn [build_speaker_map_from]. rewrite Hstep.
    destruct (decide (is_Some ((∅ : gmap string string) !! l)))
      as [[? Hsome] | ]; [ | reflexivity].
    rewrite lookup_empty in Hsome. discriminate. }
  split.
  - eexists. repeat split; vm_compute; reflexivity.
  - eexists. repeat split; vm_compute; reflexivity.
Qed.

Lemma hand_assigned_name_goes_to_dominant_label_witness :
  let cropped :=
    omap (crop_track (float_of_Z 2) (float_of_Z 7)) example_diarization in
  let d := user_dict 2 7 "hello" "Alice" in
  dominant_ai_speaker cropped = Some "SPEAKER_00" ∧
  ((∅ : gmap string string) !! "SPEAKER_00" = None →
   reconcile_segment example_diarization ∅ (PDict d)
     = Ok (<["SPEAKER_00" := "Alice"]> ∅)) ∧
  (is_Some ((∅ : gmap string string) !! "SPEAKER_00") →
   reconcile_segment example_diarization ∅ (PDict d) = Ok ∅) ∧
  (∀ before after earlier final,
     build_speaker_map_from example_diarization ∅ before = Ok earlier →
     build_speaker_map example_diarization
       (PList (before ++ PDict d :: after)) = Ok final →
     final !! "SPEAKER_00" = Some (default "Alice" (earlier !! "SPEAKER_00"))) ∧
  build_speaker_map example_diarization (PList [PDict d])
    = Ok {[ "SPEAKER_00" := "Alice" ]} ∧
  (∃ cropped,
     crop example_diarization (PInt 2) (PInt 7) = Ok cropped ∧
     label_duration cropped "SPEAKER_00" = float_of_Z 3 ∧
     label_duration cropped "SPEAKER_01" = float_of_Z 2) ∧
  (∃ m,
     build_speaker_map example_diarization
       (PList [user_segment 2 7 "hello" "Alice"]) = Ok m ∧
     m !! "SPEAKER_00" = Some "Alice" ∧ m !! "SPEAKER_01" = None).
Proof.
  intros cropped d.
  assert (labels cropped = ["SPEAKER_00"; "SPEAKER_01"]) as Hlabels
    by (vm_compute; reflexivity).
  apply (hand_assigned_name_goes_to_dominant_label example_diarization ∅
           d "Alice" (PInt 2) (PInt 7) cropped "SPEAKER_00").
  - vm_compute. reflexivity.
  - discriminate.
  - vm_compute. reflexivity.
  - vm_compute. reflexivity.
  - vm_compute. reflexivity.
  - vm_compute. reflexivity.
  - vm_compute. reflexivity.
  - rewrite Hlabels. apply list_elem_of_here.
  - intros l' Hl' Hne. rewrite Hlabels in Hl'.
    apply elem_of_cons in Hl' as [-> | Hl']; [contradiction | ].
    apply list_elem_of_singleton in Hl' as ->. vm_compute. reflexivity.
Defined.

(** C6.  Once a label is in the map, the rest of the loop leaves its
    entry as it is: whatever user segments follow, the final map sends
    the label to the same name; and a later hand-named segment whose
    dominant label it is leaves the whole map unchanged, even though it
    asks for another name.  In the example a second segment "Bob", also
    dominated by SPEAKER_00, does not displace "Alice". *)
Theorem first_assignment_wins
    {A : Type} `{Annotation A} (diar : A)
    (speaker_map final : gmap string string) (user_segments : list pyval)
    (label name : string) :
  speaker_map !! label = Some name →
  build_speaker_map_from diar speaker_map user_segments = Ok final →
  final !! label = Some name ∧
  (∀ d other start end_ overlap,
     d !! "speaker" = Some (PStr other) → other ≠ "" →
     startswith other "SPEAKER_" = false →
     d !! "start" = Some start → d !! "end" = Some end_ →
     crop diar start end_ = Ok overlap →
     dominant_ai_speaker overlap = Some label →
     reconcile_segment diar speaker_map (PDict d) = Ok speaker_map) ∧
  build_speaker_map example_diarization
    (PList [user_segment 2 7 "hello" "Alice"; user_segment 1 4 "hi" "Bob"])
    = Ok {[ "SPEAKER_00" := "Alice" ]}.
Proof.
  intros Hl Hloop. split.
  { exact (build_speaker_map_from_keeps diar speaker_map final user_segments
             label name Hl Hloop). }
  split; [ | vm_compute; reflexivity].
  intros d other start end_ overlap Hsp Hne Hauto Hs He Hcrop Hdom.
  rewrite (reconcile_segment_named diar speaker_map d other start end_)
    by assumption.
  rewrite Hcrop. cbn [mbind result_bind]. rewrite Hdom.
  destruct (nonempty overlap); [ | reflexivity].
  destruct (decide (is_Some (speaker_map !! label))) as [ | Hnot];
    [reflexivity | ].
  exfalso. apply Hnot. eauto.
Qed.

Lemma first_assignment_wins_witness :
  let speaker_map : gmap string string := {[ "SPEAKER_00" := "Alice" ]} in
  speaker_map !! "SPEAKER_00" = Some "Alice" ∧
  (∀ d other start end_ overlap,
     d !! "speaker" = Some (PStr other) → other ≠ "" →
     startswith other "SPEAKER_" = false →
     d !! "start" = Some start → d !! "end" = Some end_ →
     crop example_diarization start end_ = Ok overlap →
     dominant_ai_speaker overlap = Some "SPEAKER_00" →
     reconcile_segment example_diarization speaker_map (PDict d)
       = Ok speaker_map) ∧
  build_speaker_map example_diarization
    (PList [user_segment 2 7 "hello" "Alice"; user_segment 1 4 "hi" "Bob"])
    = Ok {[ "SPEAKER_00" := "Alice" ]}.
Proof.
  intros speaker_map.
  apply (first_assignment_wins example_diarization speaker_map speaker_map
           [user_segment 1 4 "hi" "Bob"] "SPEAKER_00" "Alice").
  - vm_compute. reflexivity.
  - vm_compute. reflexivity.
Defined.

(** C7.  A user segment with no speaker, a [None] or empty speaker, or a
    speaker that still starts with ["SPEAKER_"] is passed over: the loop
    body returns the map it was given, and the map built from a sequence
    is the one built from the sequence without that segment. *)
Theorem unedited_segments_are_skipped
    {A : Type} `{Annotation A} (diar : A)
    (speaker_map : gmap string string) (d : dict)
    (before after : list pyval) :
  unedited_speaker (d !! "speaker") →
  reconcile_segment diar speaker_map (PDict d) = Ok speaker_map ∧
  build_speaker_map_from diar speaker_map (before ++ PDict d :: after)
    = build_speaker_map_from diar speaker_map (before ++ after) ∧
  build_speaker_map diar (PList (before ++ PDict d :: after))
    = build_speaker_map diar (PList (before ++ after)).
Proof.
  intros Hskip.
  assert (∀ m, reconcile_segment diar m (PDict d) = Ok m) as Hstep.
  { intros m. unfold reconcile_segment, py_get.
    destruct Hskip as [-> | [-> | [-> | (name & -> & Hauto)]]];
      try reflexivity.
    cbn [default from_option id mbind result_bind].
    destruct (truthy (PStr name)); [ | reflexivity].
    cbn [negb]. rewrite Hauto. reflexivity. }
  assert (∀ m, build_speaker_map_from diar m (before ++ PDict d :: after)
               = build_speaker_map_from diar m (before ++ after)) as Hloop.
  { intros m. rewrite !build_speaker_map_from_app.
    destruct (build_speaker_map_from diar m before) as [m1 | ];
      [ | reflexivity].
    cbn [mbind result_bind build_speaker_map_from]. rewrite Hstep.
    reflexivity. }
  split; [apply Hstep | ]. split; [apply Hloop | ].
  unfold build_speaker_map. cbn [py_iter mbind result_bind]. apply Hloop.
Qed.

Lemma unedited_segments_are_skipped_witness :
  let d := user_dict 6 9 "well" "SPEAKER_01" in
  let before := [user_segment 2 7 "hello" "Alice"] in
  reconcile_segment example_diarization ∅ (PDict d) = Ok ∅ ∧
  build_speaker_map_from example_diarization ∅ (before ++ PDict d :: [])
    = build_speaker_map_from example_diarization ∅ (before ++ []) ∧
  build_speaker_map example_diarization (PList (before ++ PDict d :: []))
    = build_speaker_map example_diarization (PList (before ++ [])).
Proof.
  intros d before.
  apply (unedited_segments_are_skipped example_diarization ∅ d before []).
  right. right. right. exists "SPEAKER_01". split; vm_compute; reflexivity.
Defined.

(** ** Errors of [refine_diarization] *)

(** The [try] block starts with the audio loader, and calls are only ever
    added to the log. *)
Lemma refine_body_calls {A : Type} `{Annotation A} (repr : pyval → string)
    (stack : Collaborators A) (file : UploadFile) (payload : pyval)
    (r : result (string * list dict)) (log log' : list call) :
  refine_body repr stack file payload log = (r, log') →
  ∃ calls, log' = log ++ LoadAudio :: calls.
Proof.
  unfold refine_body, mbind, io_bind, invoke, lift, mret, io_ret.
  destruct (load_audio stack (content file)) as [audio | ];
    [ | intros [= _ <-]; eauto].
  destruct (diarize_model stack) as [diarize | ]; [ | intros [= _ <-]; eauto].
  destruct (diarize audio) as [diarization | ];
    [ | intros [= _ <-]; rewrite <- app_assoc; eauto].
  destruct (build_speaker_map diarization payload) as [speaker_map | ];
    [ | intros [= _ <-]; rewrite <- app_assoc; eauto].
  destruct (rename_labels diarization speaker_map) as [final | ];
    [ | intros [= _ <-]; rewrite <- app_assoc; eauto].
  destruct (py_iter payload) as [items | ]; cbn [result_bind];
    [ | intros [= _ <-]; rewrite <- app_assoc; eauto].
  destruct (mapM without_speaker items) as [stripped | ];
    [ | intros [= _ <-]; rewrite <- app_assoc; eauto].
  destruct (assign_word_speakers stack final stripped) as [refined | ];
    [ | intros [= _ <-]; rewrite <- !app_assoc; eauto].
  destruct (generate_srt repr refined);
    intros [= _ <-]; rewrite <- !app_assoc; eauto.
Qed.

(** X14.  Once the upload is a media file, its segments have parsed and its
    temporary copy has been written, every failure leaves through the
    [except] clause of the [try] block, as a 500 whose detail is the text
    of the exception caught; the audio loader has been called by then. *)
Lemma refine_failures_past_the_checks_are_500
    {A : Type} `{Annotation A} (repr : pyval → string)
    (stack : Collaborators A) (file : UploadFile) (segments_json : string)
    (ct : string) (payload : pyval) (e : exn) (log log' : list call) :
  content_type file = Some ct →
  startswith ct "audio/" || startswith ct "video/" = true →
  json_loads stack segments_json = Ok payload →
  temporary_copy stack file = Ok tt →
  refine_diarization repr stack file segments_json log = (Raise e, log') →
  (∃ cause, e = HTTPException 500 (inr cause)) ∧
  ∃ calls, log' = log ++ LoadAudio :: calls.
Proof.
  intros Hct Hmedia Hjson Hcopy. unfold refine_diarization.
  rewrite Hct, Hjson, Hcopy. unfold mbind, io_bind, lift.
  rewrite Hmedia. cbn [negb]. unfold try_except.
  destruct (refine_body repr stack file payload log) as [[resp | cause] l1]
    eqn:Hbody; [discriminate | ].
  intros [= <- <-]. split; [eauto | ].
  exact (refine_body_calls repr stack file payload _ log l1 Hbody).
Qed.

(** C5.  A segment list that parses but lacks a field is not turned away
    as invalid input.  A hand-named segment without ["start"] (or
    ["end"]) fails inside the loop that builds the speaker map, and a
    segment without ["text"] where the result is assembled: each time
    the audio has been loaded and the diarization run, and the error that
    leaves the handler is the 500 of the catch-all clause, with the
    [KeyError] as detail.  Only a payload that is not JSON at all gets
    the 400, before any call. *)
Theorem refine_missing_field_is_internal_error :
  let run payload diarization :=
    refine_diarization (λ _, "") (example_stack payload diarization)
      example_upload "" [] in
  run (Some (PList [PDict {[ "end" := PInt 1; "text" := PStr "hi";
                             "speaker" := PStr "Alice" ]}]))
      example_diarization
    = (Raise (HTTPException 500 (inr (KeyError "start"))),
       [LoadAudio; Diarize]) ∧
  run (Some (PList [PDict {[ "start" := PInt 0; "text" := PStr "hi";
                             "speaker" := PStr "Alice" ]}]))
      example_diarization
    = (Raise (HTTPException 500 (inr (KeyError "end"))),
       [LoadAudio; Diarize]) ∧
  run (Some (PList [PDict {[ "start" := PInt 0; "end" := PInt 1 ]}])) []
    = (Raise (HTTPException 500 (inr (KeyError "text"))),
       [LoadAudio; Diarize]) ∧
  run None example_diarization
    = (Raise (HTTPException 400 (inl "Invalid segments_json format.")), []).
Proof. repeat split; vm_compute; reflexivity. Qed.

(** ** The shape of a timestamp *)

Lemma append_cons (x : ascii) (a b : string) :
  String x a +:+ b = String x (a +:+ b).
Proof. reflexivity. Qed.

Lemma append_length (a b : string) :
  String.length (a +:+ b) = (String.length a + String.length b)%nat.
Proof.
  induction a as [ | c a IH]; [reflexivity | ].
  rewrite append_cons. simpl. rewrite IH. reflexivity.
Qed.

Lemma append_assoc (a b c : string) : (a +:+ b) +:+ c = a +:+ (b +:+ c).
Proof.
  induction a as [ | x a IH]; [reflexivity | ].
  rewrite !append_cons, IH. reflexivity.
Qed.

Lemma append_inj_length (a1 a2 b1 b2 : string) :
  String.length a1 = String.length a2 →
  a1 +:+ b1 = a2 +:+ b2 → a1 = a2 ∧ b1 = b2.
Proof.
  revert a2. induction a1 as [ | c a1 IH]; intros [ | c2 a2] Hlen Heq;
    try discriminate.
  - split; [reflexivity | assumption].
  - rewrite !append_cons in Heq. injection Heq as -> Heq.
    injection Hlen as Hlen.
    destruct (IH a2 Hlen Heq) as [-> ->]. split; reflexivity.
Qed.

(** A check that passes on each of [0 .. n-1] holds on the interval. *)
Lemma check_below (P : Z → bool) (n : nat) :
  forallb P (Z.of_nat <$> seq 0 n) = true →
  ∀ z, 0 ≤ z < Z.of_nat n → P z = true.
Proof.
  intros Hall z Hz. rewrite forallb_forall in Hall. apply Hall.
  apply in_map_iff. exists (Z.to_nat z). split; [lia | ].
  apply in_seq. lia.
Qed.

Lemma two_digits (z : Z) :
  0 ≤ z < 100 →
  String.length (format_int_zero_padded 2 z) = 2%nat ∧
  digits_value (format_int_zero_padded 2 z) = z.
Proof.
  intros Hz.
  pose proof (check_below
    (λ z, Nat.eqb (String.length (format_int_zero_padded 2 z)) 2
          && (digits_value (format_int_zero_padded 2 z) =? z)) 100
    ltac:(vm_compute; reflexivity) z Hz) as Hcheck.
  apply andb_prop in Hcheck as [Hlen Hval].
  apply Nat.eqb_eq in Hlen. apply Z.eqb_eq in Hval. split; assumption.
Qed.

Lemma three_digits (z : Z) :
  0 ≤ z < 1000 →
  String.length (format_int_zero_padded 3 z) = 3%nat ∧
  digits_value (format_int_zero_padded 3 z) = z.
Proof.
  intros Hz.
  pose proof (check_below
    (λ z, Nat.eqb (String.length (format_int_zero_padded 3 z)) 3
          && (digits_value (format_int_zero_padded 3 z) =? z)) 1000
    ltac:(vm_compute; reflexivity) z Hz) as Hcheck.
  apply andb_prop in Hcheck as [Hlen Hval].
  apply Nat.eqb_eq in Hlen. apply Z.eqb_eq in Hval. split; assumption.
Qed.

(** The fields [timedelta] stores are normalised. *)
Lemma timedelta_normalised (x : pyval) (d s us : Z) :
  timedelta x = Ok (d, s, us) →
  0 ≤ s < 86400 ∧ 0 ≤ us < 1000000 ∧ Z.abs d ≤ 999999999.
Proof.
  unfold timedelta. intros Hdelta.
  assert (∀ w r,
    (let '(days, seconds) := divmod w (24 * 3600) in
     let d := days in
     let s := seconds in
     let '(seconds0, us) := divmod r 1000000 in
     let s0 := s + seconds0 in
     let '(days0, s1) := divmod s0 (24 * 3600) in
     let d0 := d + days0 in
     if 999999999 <? Z.abs d0 then Raise OverflowError else Ok (d0, s1, us))
    = Ok (d, s, us) →
    0 ≤ s < 86400 ∧ 0 ≤ us < 1000000 ∧ Z.abs d ≤ 999999999) as Hnorm.
  { intros w r. unfold divmod. change (24 * 3600) with 86400.
    destruct (Z.ltb_spec 999999999
                (Z.abs (w / 86400 + (w mod 86400 + r / 1000000) / 86400)));
      [discriminate | ].
    intros [= <- <- <-].
    pose proof (Z.mod_pos_bound (w mod 86400 + r / 1000000) 86400).
    pose proof (Z.mod_pos_bound r 1000000). lia. }
  destruct x as [ | b | z | f | | | ]; simpl in Hdelta; try discriminate.
  - apply (Hnorm _ _ Hdelta).
  - apply (Hnorm _ _ Hdelta).
  - destruct (modf f) as [[frac whole] | ]; simpl in Hdelta; [ | discriminate].
    destruct (py_round _) as [r | ]; simpl in Hdelta; [ | discriminate].
    apply (Hnorm _ _ Hdelta).
Qed.

Lemma srt_timestamp_length (h m s ms : Z) :
  0 ≤ h < 100 → 0 ≤ m < 100 → 0 ≤ s < 100 → 0 ≤ ms < 1000 →
  String.length (srt_timestamp h m s ms) = 12%nat ∧
  String.get 2 (srt_timestamp h m s ms) = Some ":"%char ∧
  String.get 5 (srt_timestamp h m s ms) = Some ":"%char ∧
  String.get 8 (srt_timestamp h m s ms) = Some ","%char.
Proof.
  intros Hh Hm Hs Hms. unfold srt_timestamp.
  destruct (two_digits h Hh) as [Lh _]. destruct (two_digits m Hm) as [Lm _].
  destruct (two_digits s Hs) as [Ls _].
  destruct (three_digits ms Hms) as [Lms _].
  destruct (format_int_zero_padded 2 h) as [ | h1 [ | h2 [ | ? ?]]];
    try discriminate.
  destruct (format_int_zero_padded 2 m) as [ | m1 [ | m2 [ | ? ?]]];
    try discriminate.
  destruct (format_int_zero_padded 2 s) as [ | s1 [ | s2 [ | ? ?]]];
    try discriminate.
  destruct (format_int_zero_padded 3 ms) as [ | x1 [ | x2 [ | x3 [ | ? ?]]]];
    try discriminate.
  repeat split; reflexivity.
Qed.

Lemma srt_timestamp_inj (h m s ms h' m' s' ms' : Z) :
  0 ≤ h < 100 → 0 ≤ m < 100 → 0 ≤ s < 100 → 0 ≤ ms < 1000 →
  0 ≤ h' < 100 → 0 ≤ m' < 100 → 0 ≤ s' < 100 → 0 ≤ ms' < 1000 →
  srt_timestamp h m s ms = srt_timestamp h' m' s' ms' →
  h = h' ∧ m = m' ∧ s = s' ∧ ms = ms'.
Proof.
  intros Hh Hm Hs Hms Hh' Hm' Hs' Hms'. unfold srt_timestamp.
  destruct (two_digits h Hh) as [Lh Vh], (two_digits h' Hh') as [Lh' Vh'].
  destruct (two_digits m Hm) as [Lm Vm], (two_digits m' Hm') as [Lm' Vm'].
  destruct (two_digits s Hs) as [Ls Vs], (two_digits s' Hs') as [Ls' Vs'].
  destruct (three_digits ms Hms) as [Lms Vms],
    (three_digits ms' Hms') as [Lms' Vms'].
  intros Heq.
  apply append_inj_length in Heq as [Eh Heq]; [ | congruence].
  apply String.app_inj in Heq.
  apply append_inj_length in Heq as [Em Heq]; [ | congruence].
  apply String.app_inj in Heq.
  apply append_inj_length in Heq as [Es Heq]; [ | congruence].
  apply String.app_inj in Heq as Ems.
  rewrite <- Vh, <- Vh', <- Vm, <- Vm', <- Vs, <- Vs', <- Vms, <- Vms'.
  rewrite Eh, Em, Es, Ems. repeat split; reflexivity.
Qed.

(** X1.  Whatever [format_time] returns is twelve characters long,
    [HH:MM:SS,mmm]: two digits of hours below 24, of minutes and of
    seconds below 60, three digits of milliseconds, with the colons and
    the comma always at the same places. *)
Theorem format_time_prints_twelve_characters (x : pyval) (s : string) :
  format_time x = Ok s →
  String.length s = 12%nat ∧
  String.get 2 s = Some ":"%char ∧ String.get 5 s = Some ":"%char ∧
  String.get 8 s = Some ","%char ∧
  ∃ h m sec ms,
    0 ≤ h < 24 ∧ 0 ≤ m < 60 ∧ 0 ≤ sec < 60 ∧ 0 ≤ ms < 1000 ∧
    s = srt_timestamp h m sec ms.
Proof.
  unfold format_time. intros Hfmt.
  destruct (timedelta x) as [[[d secs] us] | ] eqn:Hdelta; simpl in Hfmt;
    [ | discriminate].
  apply timedelta_normalised in Hdelta as (Hsecs & Hus & _).
  unfold divmod in Hfmt. injection Hfmt as <-.
  assert (0 ≤ secs / 3600 < 24) as Hh by (Z.div_mod_to_equations; lia).
  assert (0 ≤ secs mod 3600 / 60 < 60) as Hm
    by (Z.div_mod_to_equations; lia).
  assert (0 ≤ (secs mod 3600) mod 60 < 60) as Hs
    by (Z.div_mod_to_equations; lia).
  assert (0 ≤ us / 1000 < 1000) as Hms by (Z.div_mod_to_equations; lia).
  destruct (srt_timestamp_length (secs / 3600) (secs mod 3600 / 60)
              ((secs mod 3600) mod 60) (us / 1000))
    as (Hlen & H2 & H5 & H8); try lia.
  repeat split; try assumption.
  exists (secs / 3600), (secs mod 3600 / 60), ((secs mod 3600) mod 60),
    (us / 1000).
  repeat split; try lia.
Qed.

Lemma format_time_prints_twelve_characters_witness :
  String.length "01:01:01,000" = 12%nat ∧
  String.get 2 "01:01:01,000" = Some ":"%char ∧
  String.get 5 "01:01:01,000" = Some ":"%char ∧
  String.get 8 "01:01:01,000" = Some ","%char ∧
  ∃ h m sec ms,
    0 ≤ h < 24 ∧ 0 ≤ m < 60 ∧ 0 ≤ sec < 60 ∧ 0 ≤ ms < 1000 ∧
    "01:01:01,000" = srt_timestamp h m sec ms.
Proof.
  apply (format_time_prints_twelve_characters
           (PFloat (float_of_ratio 36610005 10000))).
  vm_compute. reflexivity.
Defined.

(** X2.  A whole number of seconds is accepted exactly from -86399999913600 to
    86399999999999, the seconds [timedelta] can hold in 999999999 days
    either way, and is then printed as its time of day; beyond, the
    [OverflowError] of [timedelta] comes out. *)
Theorem format_time_whole_seconds_range (z : Z) :
  format_time (PInt z) =
    if (-86399999913600 <=? z) && (z <=? 86399999999999)
    then Ok (clock_of_microseconds (z * 1000000))
    else Raise OverflowError.
Proof.
  destruct (Z.leb_spec (-86399999913600) z) as [Hlo | Hlo];
    destruct (Z.leb_spec z 86399999999999) as [Hhi | Hhi]; simpl.
  - apply format_time_clock; [reflexivity | ].
    Z.div_mod_to_equations. lia.
  - unfold format_time, timedelta, divmod. simpl.
    change (24 * 3600) with 86400.
    rewrite Z.add_0_r, Z.mod_mod, Z.mod_div, Z.add_0_r by lia.
    destruct (Z.ltb_spec 999999999 (Z.abs (z / 86400))) as [ | Hd];
      [reflexivity | ].
    exfalso. Z.div_mod_to_equations. lia.
  - unfold format_time, timedelta, divmod. simpl.
    change (24 * 3600) with 86400.
    rewrite Z.add_0_r, Z.mod_mod, Z.mod_div, Z.add_0_r by lia.
    destruct (Z.ltb_spec 999999999 (Z.abs (z / 86400))) as [ | Hd];
      [reflexivity | ].
    exfalso. Z.div_mod_to_equations. lia.
  - lia.
Qed.

Lemma clock_fields_of_day (t : Z) :
  let u := (t / 1000) mod 86400000 in
  (t / 3600000000) mod 24 = u / 3600000 ∧
  (t / 60000000) mod 60 = (u mod 3600000) / 60000 ∧
  (t / 1000000) mod 60 = (u mod 60000) / 1000 ∧
  (t / 1000) mod 1000 = u mod 1000.
Proof.
  intros u. subst u.
  replace (t / 3600000000) with (t / 1000 / 3600000)
    by (rewrite Z.div_div by lia; reflexivity).
  replace (t / 60000000) with (t / 1000 / 60000)
    by (rewrite Z.div_div by lia; reflexivity).
  replace (t / 1000000) with (t / 1000 / 1000)
    by (rewrite Z.div_div by lia; reflexivity).
  generalize (t / 1000). intros T.
  repeat split; Z.div_mod_to_equations; lia.
Qed.

Lemma day_from_fields (u : Z) :
  u = 3600000 * (u / 3600000) + 60000 * ((u mod 3600000) / 60000)
      + 1000 * ((u mod 60000) / 1000) + u mod 1000.
Proof. Z.div_mod_to_equations. lia. Qed.

(** X3.  Two accepted arguments get the same timestamp exactly when they fall
    in the same millisecond of the day: the timestamp tells the time of
    day to the millisecond, and nothing else of its argument. *)
Theorem same_timestamp_iff_same_millisecond_of_day
    (x y : pyval) (tx ty : Z) :
  total_microseconds x = Ok tx → Z.abs (tx / 86400000000) ≤ 999999999 →
  total_microseconds y = Ok ty → Z.abs (ty / 86400000000) ≤ 999999999 →
  format_time x = format_time y ↔
  (tx / 1000) mod 86400000 = (ty / 1000) mod 86400000.
Proof.
  intros Hx Hdx Hy Hdy.
  rewrite (format_time_clock x tx Hx Hdx), (format_time_clock y ty Hy Hdy).
  unfold clock_of_microseconds.
  destruct (clock_fields_of_day tx) as (-> & -> & -> & ->).
  destruct (clock_fields_of_day ty) as (-> & -> & -> & ->).
  pose proof (Z.mod_pos_bound (tx / 1000) 86400000 ltac:(lia)) as Hux.
  pose proof (Z.mod_pos_bound (ty / 1000) 86400000 ltac:(lia)) as Huy.
  revert Hux Huy.
  generalize ((tx / 1000) mod 86400000), ((ty / 1000) mod 86400000).
  intros ux uy Hux Huy. split.
  - intros [= Heq].
    assert (∀ u, 0 ≤ u < 86400000 →
              0 ≤ u / 3600000 < 100 ∧ 0 ≤ u mod 3600000 / 60000 < 100 ∧
              0 ≤ u mod 60000 / 1000 < 100 ∧ 0 ≤ u mod 1000 < 1000)
      as Hbounds.
    { intros u Hu. repeat split; Z.div_mod_to_equations; lia. }
    destruct (Hbounds ux Hux) as (? & ? & ? & ?).
    destruct (Hbounds uy Huy) as (? & ? & ? & ?).
    apply srt_timestamp_inj in Heq as (Hh & Hm & Hs & Hms); try assumption.
    rewrite (day_from_fields ux), (day_from_fields uy).
    rewrite Hh, Hm, Hs, Hms. reflexivity.
  - intros ->. reflexivity.
Qed.

Lemma same_timestamp_iff_same_millisecond_of_day_witness :
  format_time (PInt 90000)
    = format_time (PFloat (float_of_ratio 36000004 10000))
  ↔ (90000000000 / 1000) mod 86400000 = (3600000400 / 1000) mod 86400000.
Proof.
  apply (same_timestamp_iff_same_millisecond_of_day (PInt 90000)
           (PFloat (float_of_ratio 36000004 10000)) 90000000000 3600000400).
  - reflexivity.
  - vm_compute. discriminate.
  - vm_compute. reflexivity.
  - vm_compute. discriminate.
Defined.

(** ** The renderer on whole sequences *)

Section RendererSequences.

Variable repr : pyval → string.

(** A cue that is rendered comes from a segment with a start and an end
    that [format_time] accepts and a text that is a string. *)
Lemma srt_cue_inv (i : nat) (segment : dict) (cue : string) :
  srt_cue repr i segment = Ok cue →
  ∃ start end_ text start_time end_time,
    segment !! "start" = Some start ∧ format_time start = Ok start_time ∧
    segment !! "end" = Some end_ ∧ format_time end_ = Ok end_time ∧
    segment !! "text" = Some (PStr text) ∧
    cue = cue_block (i + 1) start_time end_time (text_line repr segment text).
Proof.
  intros Hcue.
  destruct (segment !! "start") as [start | ] eqn:Hs;
    [ | unfold srt_cue, getitem in Hcue; rewrite Hs in Hcue; discriminate].
  destruct (format_time start) as [start_time | ] eqn:Hst;
    [ | unfold srt_cue, getitem in Hcue; rewrite Hs in Hcue; simpl in Hcue;
        rewrite Hst in Hcue; discriminate].
  destruct (segment !! "end") as [end_ | ] eqn:He;
    [ | unfold srt_cue, getitem in Hcue; rewrite Hs in Hcue; simpl in Hcue;
        rewrite Hst in Hcue; simpl in Hcue; rewrite He in Hcue;
        discriminate].
  destruct (format_time end_) as [end_time | ] eqn:Het;
    [ | unfold srt_cue, getitem in Hcue; rewrite Hs in Hcue; simpl in Hcue;
        rewrite Hst in Hcue; simpl in Hcue; rewrite He in Hcue;
        simpl in Hcue; rewrite Het in Hcue; discriminate].
  destruct (segment !! "text") as [text_v | ] eqn:Ht;
    [ | unfold srt_cue, getitem in Hcue; rewrite Hs in Hcue; simpl in Hcue;
        rewrite Hst in Hcue; simpl in Hcue; rewrite He in Hcue;
        simpl in Hcue; rewrite Het in Hcue; simpl in Hcue;
        rewrite Ht in Hcue; discriminate].
  destruct text_v as [ | | | | text | | ];
    try (unfold srt_cue, getitem in Hcue; rewrite Hs in Hcue; simpl in Hcue;
         rewrite Hst in Hcue; simpl in Hcue; rewrite He in Hcue;
         simpl in Hcue; rewrite Het in Hcue; simpl in Hcue;
         rewrite Ht in Hcue; discriminate).
  rewrite (srt_cue_ok repr i segment start end_ start_time end_time text)
    in Hcue by assumption.
  injection Hcue as <-. exists start, end_, text, start_time, end_time.
  repeat split; first [reflexivity | assumption].
Qed.

(** The accumulator only ever grows at its end. *)
Lemma generate_srt_from_acc (i : nat) (l : list dict) (acc : string) :
  generate_srt_from repr i l acc =
  rest ← generate_srt_from repr i l ""; Ok (acc +:+ rest).
Proof.
  revert i acc. induction l as [ | seg l IH]; intros i acc;
    cbn [generate_srt_from].
  - cbn [mbind result_bind].
    assert (acc +:+ "" = acc) as ->; [ | reflexivity].
    induction acc as [ | c acc IHacc]; [reflexivity | ].
    rewrite append_cons, IHacc. reflexivity.
  - destruct (srt_cue repr i seg) as [cue | e]; cbn [mbind result_bind];
      [ | reflexivity].
    rewrite (IH (S i) (acc +:+ cue)), (IH (S i) ("" +:+ cue)).
    destruct (generate_srt_from repr (S i) l "") as [rest | e];
      cbn [mbind result_bind]; [ | reflexivity].
    rewrite append_assoc. reflexivity.
Qed.

Lemma generate_srt_from_cues (i : nat) (l : list dict) (out : string) :
  generate_srt_from repr i l "" = Ok out →
  ∃ cues,
    length cues = length l ∧ out = foldr append "" cues ∧
    ∀ k segment, l !! k = Some segment →
      ∃ cue, cues !! k = Some cue ∧ srt_cue repr (i + k) segment = Ok cue.
Proof.
  revert i out. induction l as [ | seg l IH]; intros i out Hout;
    cbn [generate_srt_from] in Hout.
  - injection Hout as <-. exists []. repeat split.
    intros k segment Hk. rewrite lookup_nil in Hk. discriminate.
  - destruct (srt_cue repr i seg) as [cue | e] eqn:Hcue;
      cbn [mbind result_bind] in Hout; [ | discriminate].
    rewrite generate_srt_from_acc in Hout.
    destruct (generate_srt_from repr (S i) l "") as [rest | e] eqn:Hrest;
      cbn [mbind result_bind] in Hout; [ | discriminate].
    injection Hout as <-.
    destruct (IH (S i) rest Hrest) as (cues & Hlen & -> & Hcues).
    exists (cue :: cues). split; [simpl; lia | ]. split; [reflexivity | ].
    intros [ | k] segment Hk; simpl in Hk.
    + injection Hk as <-. exists cue. rewrite Nat.add_0_r.
      split; [reflexivity | assumption].
    + destruct (Hcues k segment Hk) as (c & Hc & Hok). exists c.
      replace (i + S k)%nat with (S i + k)%nat by lia.
      split; assumption.
Qed.

(** X4.  The output of [generate_srt] is one cue per segment, in order, the
    cue at position [i] numbered [i + 1]; every segment of a rendered
    sequence has a start and an end that format and a text that is a
    string. *)
Theorem generate_srt_numbers_cues_in_order (segments : list dict)
    (out : string) :
  generate_srt repr segments = Ok out →
  ∃ cues,
    length cues = length segments ∧ out = foldr append "" cues ∧
    ∀ i segment, segments !! i = Some segment →
      ∃ start end_ text start_time end_time,
        segment !! "start" = Some start ∧ format_time start = Ok start_time ∧
        segment !! "end" = Some end_ ∧ format_time end_ = Ok end_time ∧
        segment !! "text" = Some (PStr text) ∧
        cues !! i =
          Some (cue_block (i + 1) start_time end_time
                  (text_line repr segment text)).
Proof.
  intros Hout. unfold generate_srt in Hout.
  destruct (generate_srt_from_cues 0 segments out Hout)
    as (cues & Hlen & -> & Hcues).
  exists cues. split; [assumption | ]. split; [reflexivity | ].
  intros i segment Hi. destruct (Hcues i segment Hi) as (cue & Hc & Hok).
  simpl in Hok. apply srt_cue_inv in Hok
    as (start & end_ & text & st & et & Hs & Hst & He & Het & Ht & ->).
  exists start, end_, text, st, et. repeat split; assumption.
Qed.

(** X5.  Rendering a sequence cut in two: a failure in the first part is the
    failure of the whole; otherwise the output is the first part's
    output followed by the cues of the second part, numbered on from
    where the first part ended. *)
Theorem generate_srt_app (l1 l2 : list dict) :
  generate_srt repr (l1 ++ l2) =
    match generate_srt repr l1 with
    | Raise e => Raise e
    | Ok out1 =>
        match generate_srt_from repr (length l1) l2 "" with
        | Ok rest => Ok (out1 +:+ rest)
        | Raise e => Raise e
        end
    end.
Proof.
  unfold generate_srt. rewrite generate_srt_from_app.
  destruct (generate_srt_from repr 0 l1 "") as [out1 | e];
    cbn [mbind result_bind]; [ | reflexivity].
  rewrite generate_srt_from_acc. simpl.
  destruct (generate_srt_from repr (length l1) l2 "");
    reflexivity.
Qed.

(** X6.  The first segment that cannot be rendered decides the error, and
    nothing is returned of the cues before it: a missing ["start"],
    ["end"] or ["text"] raises the [KeyError] of that key (in this
    order), a start or end that [format_time] refuses raises its error,
    and a text that is not a string raises [AttributeError]. *)
Theorem generate_srt_fails_at_first_bad_segment
    (before after : list dict) (out : string) (segment : dict) :
  generate_srt repr before = Ok out →
  (∀ e, srt_cue repr (length before) segment = Raise e →
        generate_srt repr (before ++ segment :: after) = Raise e) ∧
  (∀ i, segment !! "start" = None →
        srt_cue repr i segment = Raise (KeyError "start")) ∧
  (∀ i start e, segment !! "start" = Some start →
        format_time start = Raise e → srt_cue repr i segment = Raise e) ∧
  (∀ i start start_time, segment !! "start" = Some start →
        format_time start = Ok start_time → segment !! "end" = None →
        srt_cue repr i segment = Raise (KeyError "end")) ∧
  (∀ i start start_time end_ e, segment !! "start" = Some start →
        format_time start = Ok start_time → segment !! "end" = Some end_ →
        format_time end_ = Raise e → srt_cue repr i segment = Raise e) ∧
  (∀ i start start_time end_ end_time, segment !! "start" = Some start →
        format_time start = Ok start_time → segment !! "end" = Some end_ →
        format_time end_ = Ok end_time →
        (segment !! "text" = None →
         srt_cue repr i segment = Raise (KeyError "text")) ∧
        (∀ v, segment !! "text" = Some v → (∀ s, v ≠ PStr s) →
         srt_cue repr i segment = Raise AttributeError)).
Proof.
  intros Hout. split.
  { intros e He. unfold generate_srt in *. rewrite generate_srt_from_app.
    rewrite Hout. cbn [mbind result_bind generate_srt_from].
    rewrite Nat.add_0_l, He. reflexivity. }
  unfold srt_cue, getitem.
  split. { intros i ->. reflexivity. }
  split. { intros i start e -> Hst. cbn [mbind result_bind]. rewrite Hst.
           reflexivity. }
  split. { intros i start st -> Hst ->. cbn [mbind result_bind].
           rewrite Hst. reflexivity. }
  split. { intros i start st end_ e -> Hst -> Het. cbn [mbind result_bind].
           rewrite Hst. cbn [mbind result_bind]. rewrite Het. reflexivity. }
  intros i start st end_ et -> Hst -> Het. split.
  - intros ->. cbn [mbind result_bind]. rewrite Hst.
    cbn [mbind result_bind]. rewrite Het. reflexivity.
  - intros v -> Hv. cbn [mbind result_bind]. rewrite Hst.
    cbn [mbind result_bind]. rewrite Het. cbn [mbind result_bind].
    destruct v; try reflexivity. exfalso. apply (Hv s). reflexivity.
Qed.

End RendererSequences.

Lemma generate_srt_numbers_cues_in_order_witness :
  let segments : list dict :=
    [ {[ "start" := PInt 0; "end" := PInt 1; "text" := PStr "one" ]};
      {[ "start" := PInt 1; "end" := PInt 2; "text" := PStr "two";
         "speaker" := PStr "A" ]} ] in
  ∃ cues,
    length cues = length segments ∧
    cue_block 1 "00:00:00,000" "00:00:01,000" "one" +:+
    cue_block 2 "00:00:01,000" "00:00:02,000" "[A]: two"
      = foldr append "" cues ∧
    ∀ i segment, segments !! i = Some segment →
      ∃ start end_ text start_time end_time,
        segment !! "start" = Some start ∧ format_time start = Ok start_time ∧
        segment !! "end" = Some end_ ∧ format_time end_ = Ok end_time ∧
        segment !! "text" = Some (PStr text) ∧
        cues !! i =
          Some (cue_block (i + 1) start_time end_time
                  (text_line (λ _, "") segment text)).
Proof.
  intros segments.
  apply (generate_srt_numbers_cues_in_order (λ _, "") segments).
  vm_compute. reflexivity.
Defined.

Lemma generate_srt_fails_at_first_bad_segment_witness :
  let before : list dict :=
    [ {[ "start" := PInt 0; "end" := PInt 1; "text" := PStr "one" ]} ] in
  let segment : dict := {[ "end" := PInt 2; "text" := PStr "two" ]} in
  generate_srt (λ _, "") (before ++ segment :: []) = Raise (KeyError "start").
Proof.
  intros before segment.
  destruct (generate_srt_fails_at_first_bad_segment (λ _, "") before []
              (cue_block 1 "00:00:00,000" "00:00:01,000" "one") segment)
    as (Hfirst & Hstart & _).
  - vm_compute. reflexivity.
  - apply Hfirst. apply Hstart. vm_compute. reflexivity.
Defined.

(** ** Failures of [rename_speakers] *)

(** The only errors [format_time] has for a float. *)
Lemma format_time_float_errors (f : spec_float) (e : exn) :
  format_time (PFloat f) = Raise e → e = ValueError ∨ e = OverflowError.
Proof.
  unfold format_time, timedelta. cbn [mbind result_bind].
  destruct f as [s | s | | s m ex]; cbn [modf mbind result_bind].
  - unfold divmod. simpl. discriminate.
  - intros [= <-]. right. reflexivity.
  - intros [= <-]. left. reflexivity.
  - destruct (0 <=? ex); cbn [mbind result_bind].
    + match goal with
      | |- context [py_round ?p] => destruct (py_round p) as [r | e'] eqn:Hr
      end; cbn [mbind result_bind].
      * unfold divmod.
        match goal with
        | |- context [if ?c then _ else _] => destruct c
        end; cbn [mbind result_bind].
        -- intros [= <-]. right. reflexivity.
        -- discriminate.
      * intros [= <-]. unfold py_round in Hr.
        destruct (SFmul _ _ _ _) as [ | | | ? ? ez]; try discriminate.
        -- injection Hr as <-. right. reflexivity.
        -- injection Hr as <-. left. reflexivity.
        -- destruct (0 <=? ez); discriminate.
    + match goal with
      | |- context [py_round ?p] => destruct (py_round p) as [r | e'] eqn:Hr
      end; cbn [mbind result_bind].
      * unfold divmod.
        match goal with
        | |- context [if ?c then _ else _] => destruct c
        end; cbn [mbind result_bind].
        -- intros [= <-]. right. reflexivity.
        -- discriminate.
      * intros [= <-]. unfold py_round in Hr.
        destruct (SFmul _ _ _ _) as [ | | | ? ? ez]; try discriminate.
        -- injection Hr as <-. right. reflexivity.
        -- injection Hr as <-. left. reflexivity.
        -- destruct (0 <=? ez); discriminate.
Qed.

Lemma rename_segment_other_keys (speaker_map : gmap string string)
    (m : Segment) (key : string) :
  key ≠ "speaker" → rename_segment speaker_map m !! key = model_dump m !! key.
Proof.
  intros Hkey. rewrite rename_segment_insert.
  apply lookup_insert_ne. congruence.
Qed.

Section RenameFailures.

Variable repr : pyval → string.

(** The cue of a renamed segment: only its two times can fail. *)
Lemma srt_cue_renamed (i : nat) (speaker_map : gmap string string)
    (m : Segment) :
  srt_cue repr i (rename_segment speaker_map m) =
    start_time ← format_time (PFloat (seg_start m));
    end_time ← format_time (PFloat (seg_end m));
    Ok (cue_block (i + 1) start_time end_time
          ("[" +:+
           py_str repr (from_option PStr PNone
                          (renamed_speaker speaker_map (seg_speaker m)))
           +:+ "]: " +:+ py_strip (seg_text m))).
Proof.
  destruct (format_time (PFloat (seg_start m))) as [st | e] eqn:Hst.
  - destruct (format_time (PFloat (seg_end m))) as [et | e] eqn:Het.
    + rewrite (srt_cue_ok repr i _ (PFloat (seg_start m))
                 (PFloat (seg_end m)) st et (seg_text m)); try assumption.
      * unfold text_line. rewrite rename_segment_insert, lookup_insert_eq.
        reflexivity.
      * rewrite rename_segment_insert, lookup_insert_ne by done.
        apply model_dump_start.
      * rewrite rename_segment_insert, lookup_insert_ne by done.
        apply model_dump_end.
      * rewrite rename_segment_insert, lookup_insert_ne by done.
        apply model_dump_text.
    + unfold srt_cue, getitem.
      rewrite (rename_segment_other_keys _ _ "start") by done.
      rewrite (rename_segment_other_keys _ _ "end") by done.
      rewrite model_dump_start, model_dump_end.
      cbn [mbind result_bind]. rewrite Hst. cbn [mbind result_bind].
      rewrite Het. reflexivity.
  - unfold srt_cue, getitem.
    rewrite (rename_segment_other_keys _ _ "start") by done.
    rewrite model_dump_start. cbn [mbind result_bind]. rewrite Hst.
    reflexivity.
Qed.

Lemma generate_srt_from_renamed (speaker_map : gmap string string)
    (ms : list Segment) (i : nat) (acc : string) :
  match generate_srt_from repr i (rename_segment speaker_map <$> ms) acc with
  | Ok _ => Forall times_format ms
  | Raise e => ¬ Forall times_format ms ∧ (e = ValueError ∨ e = OverflowError)
  end.
Proof.
  revert i acc. induction ms as [ | m ms IH]; intros i acc.
  - simpl. constructor.
  - rewrite fmap_cons. cbn [generate_srt_from]. rewrite srt_cue_renamed.
    destruct (format_time (PFloat (seg_start m))) as [st | e] eqn:Hst;
      cbn [mbind result_bind].
    + destruct (format_time (PFloat (seg_end m))) as [et | e] eqn:Het;
        cbn [mbind result_bind].
      * specialize (IH (S i) (acc +:+ cue_block (i + 1) st et
          ("[" +:+ py_str repr (from_option PStr PNone
              (renamed_speaker speaker_map (seg_speaker m)))
           +:+ "]: " +:+ py_strip (seg_text m)))).
        destruct (generate_srt_from repr (S i) _ _) as [out | e].
        -- constructor; [ | assumption]. split; eauto.
        -- destruct IH as [Hnot He]. split; [ | assumption].
           intros Hall. apply Hnot. inversion Hall; assumption.
      * split; [ | exact (format_time_float_errors _ _ Het)].
        intros Hall. inversion Hall as [ | ? ? [_ [et Hok]] _]; subst.
        congruence.
    + split; [ | exact (format_time_float_errors _ _ Hst)].
      intros Hall. inversion Hall as [ | ? ? [[st Hok] _] _]; subst.
      congruence.
Qed.

(** X7.  [rename_speakers] answers exactly when the start and the end of every
    segment are times [format_time] accepts, with as many segments as it
    was given; otherwise it raises the [ValueError] (a NaN) or the
    [OverflowError] (an infinity, or more than 999999999 days) of the
    first such time.  No speaker, text or map can make it fail. *)
Theorem rename_speakers_fails_only_on_times
    (request : RenameSpeakersRequest) :
  match rename_speakers repr request with
  | Ok (srt, segs) =>
      Forall times_format (segments request) ∧
      length segs = length (segments request)
  | Raise e =>
      ¬ Forall times_format (segments request) ∧
      (e = ValueError ∨ e = OverflowError)
  end.
Proof.
  unfold rename_speakers, generate_srt, updated_segments.
  pose proof (generate_srt_from_renamed (speaker_map request)
                (segments request) 0 "") as Hgen.
  destruct (generate_srt_from repr 0 _ "") as [srt | e];
    cbn [mbind result_bind].
  - split; [assumption | apply length_fmap].
  - assumption.
Qed.

End RenameFailures.

(** ** The dominant label *)

(** [>] on floats is transitive. *)
Lemma SFltb_trans (a b c : spec_float) :
  SFltb a b = true → SFltb b c = true → SFltb a c = true.
Proof.
  unfold SFltb.
  destruct a as [sa | sa | | sa ma ea], b as [sb | sb | | sb mb eb],
    c as [sc | sc | | sc mc ec]; simpl;
    try destruct sa; try destruct sb; try destruct sc; simpl;
    try discriminate; try reflexivity.
  all: destruct (Z.compare_spec ea eb), (Z.compare_spec eb ec),
         (Z.compare_spec ea ec); simpl; try discriminate;
       try reflexivity; try lia.
  all: subst;
       change (Pos.compare_cont Eq ma mb) with (Pos.compare ma mb);
       change (Pos.compare_cont Eq mb mc) with (Pos.compare mb mc);
       change (Pos.compare_cont Eq ma mc) with (Pos.compare ma mc);
       destruct (Pos.compare_spec ma mb), (Pos.compare_spec mb mc),
         (Pos.compare_spec ma mc); simpl; try discriminate;
       try reflexivity; try lia.
Qed.

Lemma SFltb_irrefl (a : spec_float) : SFltb a a = false.
Proof.
  destruct (SFltb a a) eqn:Hlt; [ | reflexivity].
  rewrite (SFltb_asym _ _ Hlt) in Hlt. discriminate.
Qed.

(** What [max] returns is the first key or exceeds it, and no key
    exceeds it. *)
Lemma max_from_not_exceeded (key : string → spec_float) (best : string)
    (ls : list string) :
  let l := max_from (best, key best) ((λ x, (x, key x)) <$> ls) in
  l ∈ best :: ls ∧
  (l = best ∨ SFltb (key best) (key l) = true) ∧
  ∀ x, x ∈ best :: ls → SFltb (key l) (key x) = false.
Proof.
  revert best. induction ls as [ | x ls IH]; intros best; cbn zeta.
  - simpl. split; [apply list_elem_of_here | ]. split; [left; reflexivity | ].
    intros y Hy. apply list_elem_of_singleton in Hy as ->.
    apply SFltb_irrefl.
  - rewrite fmap_cons. cbn [max_from fst snd].
    destruct (SFltb (key best) (key x)) eqn:Hlt.
    + destruct (IH x) as (Hin & Hge & Hmax). cbn zeta in *.
      set (l := max_from (x, key x) ((λ x0, (x0, key x0)) <$> ls)) in *.
      assert (SFltb (key best) (key l) = true) as Hbest.
      { destruct Hge as [-> | Hxl]; [assumption | ].
        exact (SFltb_trans _ _ _ Hlt Hxl). }
      split; [apply list_elem_of_further; assumption | ].
      split; [right; assumption | ].
      intros y Hy. apply elem_of_cons in Hy as [-> | Hy].
      * apply SFltb_asym. assumption.
      * apply Hmax. assumption.
    + destruct (IH best) as (Hin & Hge & Hmax). cbn zeta in *.
      set (l := max_from (best, key best) ((λ x0, (x0, key x0)) <$> ls))
        in *.
      split.
      { apply elem_of_cons in Hin as [-> | Hin];
          [apply list_elem_of_here | do 2 apply list_elem_of_further];
          assumption. }
      split; [assumption | ].
      intros y Hy. apply elem_of_cons in Hy as [-> | Hy].
      * apply Hmax. apply list_elem_of_here.
      * apply elem_of_cons in Hy as [-> | Hy].
        -- destruct Hge as [-> | Hbl]; [assumption | ].
           destruct (SFltb (key l) (key x)) eqn:Hly; [ | reflexivity].
           rewrite (SFltb_trans _ _ _ Hbl Hly) in Hlt. discriminate.
        -- apply Hmax. apply list_elem_of_further. assumption.
Qed.

Lemma dominant_ai_speaker_member
    {A : Type} `{Annotation A} (overlap : A) (l : string) :
  dominant_ai_speaker overlap = Some l → l ∈ labels overlap.
Proof.
  unfold dominant_ai_speaker.
  destruct (labels overlap) as [ | best ls]; [discriminate | ].
  rewrite fmap_cons. cbn [max_by_value]. intros [= <-].
  apply (max_from_not_exceeded (label_duration overlap) best ls).
Qed.

(** X8.  The label the reconciler takes as dominant is one of the labels
    found in the span, and none of them has a greater duration. *)
Theorem dominant_label_is_not_exceeded
    {A : Type} `{Annotation A} (overlap : A) (l : string) :
  dominant_ai_speaker overlap = Some l →
  l ∈ labels overlap ∧
  ∀ l', l' ∈ labels overlap →
        SFltb (label_duration overlap l) (label_duration overlap l') = false.
Proof.
  unfold dominant_ai_speaker.
  destruct (labels overlap) as [ | best ls]; [discriminate | ].
  rewrite fmap_cons. cbn [max_by_value]. intros [= <-].
  destruct (max_from_not_exceeded (label_duration overlap) best ls)
    as (Hin & _ & Hmax).
  split; assumption.
Qed.

Lemma dominant_label_is_not_exceeded_witness :
  let overlap :=
    omap (crop_track (float_of_Z 2) (float_of_Z 7)) example_diarization in
  "SPEAKER_00" ∈ labels overlap ∧
  ∀ l', l' ∈ labels overlap →
        SFltb (label_duration overlap "SPEAKER_00")
          (label_duration overlap l') = false.
Proof.
  intros overlap.
  apply (dominant_label_is_not_exceeded overlap "SPEAKER_00").
  vm_compute. reflexivity.
Defined.

(** X9.  When no later label has a greater duration than the first label of
    [labels()], the first label is the dominant one: ties go to the
    label that comes first.  There is no dominant label only when there
    is no label. *)
Theorem ties_go_to_the_first_label
    {A : Type} `{Annotation A} (overlap : A) (first : string)
    (others : list string) :
  labels overlap = first :: others →
  (∀ l', l' ∈ others →
         SFltb (label_duration overlap first) (label_duration overlap l')
           = false) →
  dominant_ai_speaker overlap = Some first ∧
  (∀ other : A, dominant_ai_speaker other = None ↔ labels other = []).
Proof.
  intros Hlabels Hties. split.
  - unfold dominant_ai_speaker. rewrite Hlabels, fmap_cons.
    cbn [max_by_value]. f_equal. clear Hlabels.
    induction others as [ | x ls IH]; [reflexivity | ].
    rewrite fmap_cons. cbn [max_from fst snd].
    rewrite (Hties x) by apply list_elem_of_here.
    apply IH. intros l' Hl'. apply Hties, list_elem_of_further, Hl'.
  - intros other. unfold dominant_ai_speaker.
    destruct (labels other); simpl; split; intros; congruence.
Qed.

(** Two speakers with two seconds each in the span [3,7]: the one whose
    label sorts first is taken. *)
Lemma ties_go_to_the_first_label_witness :
  let overlap :=
    omap (crop_track (float_of_Z 3) (float_of_Z 7)) example_diarization in
  dominant_ai_speaker overlap = Some "SPEAKER_00" ∧
  (∀ other : list track, dominant_ai_speaker other = None ↔ labels other = []).
Proof.
  intros overlap.
  assert (labels overlap = ["SPEAKER_00"; "SPEAKER_01"]) as Hlabels
    by (vm_compute; reflexivity).
  apply (ties_go_to_the_first_label overlap "SPEAKER_00" ["SPEAKER_01"]).
  - exact Hlabels.
  - intros l' Hl'. apply list_elem_of_singleton in Hl' as ->.
    vm_compute. reflexivity.
Defined.

(** ** Where the entries of the speaker map come from *)

Section SpeakerMapOrigin.

Context {A : Type} `{Annotation A}.

(** One pass of the loop leaves the map alone, or adds under the dominant
    label of the segment's span the name the segment was given by
    hand. *)
Lemma reconcile_segment_origin (diar : A)
    (speaker_map m' : gmap string string) (segment : pyval) :
  reconcile_segment diar speaker_map segment = Ok m' →
  m' = speaker_map ∨
  ∃ d name start end_ overlap label,
    segment = PDict d ∧ d !! "speaker" = Some (PStr name) ∧ name ≠ "" ∧
    startswith name "SPEAKER_" = false ∧
    d !! "start" = Some start ∧ d !! "end" = Some end_ ∧
    crop diar start end_ = Ok overlap ∧
    dominant_ai_speaker overlap = Some label ∧
    speaker_map !! label = None ∧ m' = <[label := name]> speaker_map.
Proof.
  unfold reconcile_segment. intros Hstep.
  destruct segment as [ | | | | | | d]; try discriminate.
  unfold py_get in Hstep. cbn [mbind result_bind] in Hstep.
  destruct (d !! "speaker") as [speaker_name | ] eqn:Hsp;
    cbn [default from_option id] in Hstep;
    [ | simpl in Hstep; left; congruence].
  destruct (truthy speaker_name) eqn:Htruthy; cbn [negb] in Hstep;
    [ | left; congruence].
  destruct speaker_name as [ | | | | name | | ]; try discriminate.
  destruct (startswith name "SPEAKER_") eqn:Hauto; [left; congruence | ].
  unfold py_getitem, getitem in Hstep.
  destruct (d !! "start") as [start | ] eqn:Hs;
    cbn [mbind result_bind] in Hstep; [ | discriminate].
  destruct (d !! "end") as [end_ | ] eqn:He;
    cbn [mbind result_bind] in Hstep; [ | discriminate].
  destruct (crop diar start end_) as [overlap | ] eqn:Hcrop;
    cbn [mbind result_bind] in Hstep; [ | discriminate].
  destruct (nonempty overlap); [ | left; congruence].
  destruct (dominant_ai_speaker overlap) as [label | ] eqn:Hdom;
    [ | left; congruence].
  destruct (decide (is_Some (speaker_map !! label))) as [ | Hnew];
    [left; congruence | ].
  right. exists d, name, start, end_, overlap, label.
  repeat split; try assumption; try reflexivity.
  - intros ->. discriminate.
  - apply eq_None_not_Some. exact Hnew.
  - congruence.
Qed.

(** X10.  Every entry of the map that [refine_diarization] builds stands for a
    user segment: its value is the name that segment was given by hand
    (not empty, not starting with ["SPEAKER_"]) and its key the dominant
    label of that segment's span, one of the labels the diarization has
    there.  So the map holds no more entries than there are user
    segments. *)
Theorem speaker_map_entries_come_from_edits (diar : A)
    (user_segments : list pyval) (final : gmap string string) :
  build_speaker_map diar (PList user_segments) = Ok final →
  (∀ label name, final !! label = Some name →
     ∃ d start end_ overlap,
       PDict d ∈ user_segments ∧
       d !! "speaker" = Some (PStr name) ∧ name ≠ "" ∧
       startswith name "SPEAKER_" = false ∧
       d !! "start" = Some start ∧ d !! "end" = Some end_ ∧
       crop diar start end_ = Ok overlap ∧
       dominant_ai_speaker overlap = Some label ∧
       label ∈ labels overlap) ∧
  (size final ≤ length user_segments)%nat.
Proof.
  unfold build_speaker_map. cbn [py_iter mbind result_bind].
  assert (∀ (segs : list pyval) (m0 m1 : gmap string string),
    build_speaker_map_from diar m0 segs = Ok m1 →
    (∀ label name, m1 !! label = Some name →
       m0 !! label = Some name ∨
       ∃ d start end_ overlap,
         PDict d ∈ segs ∧
         d !! "speaker" = Some (PStr name) ∧ name ≠ "" ∧
         startswith name "SPEAKER_" = false ∧
         d !! "start" = Some start ∧ d !! "end" = Some end_ ∧
         crop diar start end_ = Ok overlap ∧
         dominant_ai_speaker overlap = Some label ∧
         label ∈ labels overlap) ∧
    (size m1 ≤ size m0 + length segs)%nat) as Hloop.
  { induction segs as [ | seg segs IH]; intros m0 m1 Hbuild;
      cbn [build_speaker_map_from] in Hbuild.
    - injection Hbuild as <-. split; [auto | simpl; lia].
    - destruct (reconcile_segment diar m0 seg) as [m' | ] eqn:Hstep;
        cbn [mbind result_bind] in Hbuild; [ | discriminate].
      destruct (IH m' m1 Hbuild) as [Hentries Hsize].
      apply reconcile_segment_origin in Hstep
        as [-> | (d & n & start & end_ & ov & lbl & -> & Hsp & Hne & Hauto
                  & Hs & He & Hcrop & Hdom & Hfresh & ->)].
      + split; [ | simpl; lia].
        intros label name Hl.
        destruct (Hentries label name Hl)
          as [Hold | (d & st & en & ov & Hin & Hrest)]; [left; exact Hold | ].
        right. exists d, st, en, ov.
        split; [apply list_elem_of_further; exact Hin | exact Hrest].
      + split.
        * intros label name Hl.
          destruct (Hentries label name Hl)
            as [Hold | (d' & st & en & ov' & Hin & Hrest)].
          -- destruct (decide (label = lbl)) as [-> | Hneq].
             ++ rewrite lookup_insert_eq in Hold. injection Hold as <-.
                right. exists d, start, end_, ov.
                split; [apply list_elem_of_here | ].
                repeat split; try assumption.
                apply (dominant_ai_speaker_member ov lbl Hdom).
             ++ rewrite lookup_insert_ne in Hold by congruence.
                left. exact Hold.
          -- right. exists d', st, en, ov'.
             split; [apply list_elem_of_further; exact Hin | exact Hrest].
        * rewrite map_size_insert_None in Hsize by assumption.
          simpl. lia. }
  intros Hbuild. destruct (Hloop user_segments ∅ final Hbuild)
    as [Hentries Hsize].
  split.
  - intros label name Hl.
    destruct (Hentries label name Hl) as [Hempty | Hfound];
      [rewrite lookup_empty in Hempty; discriminate | exact Hfound].
  - rewrite map_size_empty in Hsize. lia.
Qed.

(** X11.  Payloads that are not a list of objects.  [None], a boolean or a
    number cannot be iterated ([TypeError]); an empty list, an empty
    object and an empty string all count as no segment at all; a
    non-empty object or string is iterated key by key or character by
    character, and a list element that is not an object is met, each of
    which has no [get] ([AttributeError]). *)
Theorem speaker_map_of_other_payloads (diar : A) :
  (∀ v, (v = PNone ∨ (∃ b, v = PBool b) ∨ (∃ z, v = PInt z) ∨
         ∃ f, v = PFloat f) →
        build_speaker_map diar v = Raise TypeError) ∧
  build_speaker_map diar (PList []) = Ok ∅ ∧
  build_speaker_map diar (PDict ∅) = Ok ∅ ∧
  build_speaker_map diar (PStr "") = Ok ∅ ∧
  (∀ d, d ≠ ∅ → build_speaker_map diar (PDict d) = Raise AttributeError) ∧
  (∀ s, s ≠ "" → build_speaker_map diar (PStr s) = Raise AttributeError) ∧
  (∀ v rest, (∀ d, v ≠ PDict d) →
        build_speaker_map diar (PList (v :: rest)) = Raise AttributeError).
Proof.
  unfold build_speaker_map.
  split.
  { intros v [-> | [[b ->] | [[z ->] | [f ->]]]]; reflexivity. }
  split; [reflexivity | ].
  split. { cbn [py_iter mbind result_bind]. rewrite map_to_list_empty.
           reflexivity. }
  split; [reflexivity | ].
  split.
  { intros d Hd. cbn [py_iter mbind result_bind].
    destruct (map_to_list d) as [ | [k v] l] eqn:Hl.
    - apply map_to_list_empty_iff in Hl. contradiction.
    - reflexivity. }
  split.
  { intros s Hs. cbn [py_iter mbind result_bind].
    destruct s as [ | c s']; [contradiction | ].
    unfold bytes_of_string. cbn [list_ascii_of_string fmap list_fmap].
    cbn [utf8_chars].
    destruct (utf8_chars _) as [ | [ | b' c'] cs]; try reflexivity.
    destruct (continuation b'); reflexivity. }
  intros v rest Hv. cbn [py_iter mbind result_bind build_speaker_map_from].
  destruct v; try reflexivity. exfalso. apply (Hv d). reflexivity.
Qed.

End SpeakerMapOrigin.

Lemma speaker_map_entries_come_from_edits_witness :
  let user_segments :=
    [user_segment 2 7 "hello" "Alice"; user_segment 6 9 "well" "SPEAKER_01";
     user_segment 6 10 "yes" "Carol"] in
  let final : gmap string string :=
    {[ "SPEAKER_00" := "Alice"; "SPEAKER_01" := "Carol" ]} in
  (∀ label name, final !! label = Some name →
     ∃ d start end_ overlap,
       PDict d ∈ user_segments ∧
       d !! "speaker" = Some (PStr name) ∧ name ≠ "" ∧
       startswith name "SPEAKER_" = false ∧
       d !! "start" = Some start ∧ d !! "end" = Some end_ ∧
       crop example_diarization start end_ = Ok overlap ∧
       dominant_ai_speaker overlap = Some label ∧
       label ∈ labels overlap) ∧
  (size final ≤ length user_segments)%nat.
Proof.
  intros user_segments final.
  apply (speaker_map_entries_come_from_edits example_diarization
           user_segments final).
  vm_compute. reflexivity.
Defined.

(** ** The handlers *)

Lemma refine_failures_past_the_checks_are_500_witness :
  (∃ cause, HTTPException 500 (inr (KeyError "start"))
            = HTTPException 500 (inr cause)) ∧
  ∃ calls, [LoadAudio; Diarize] = [] ++ LoadAudio :: calls.
Proof.
  apply (refine_failures_past_the_checks_are_500 (λ _, "")
           (example_stack
              (Some (PList [PDict {[ "end" := PInt 1; "text" := PStr "hi";
                                     "speaker" := PStr "Alice" ]}]))
              example_diarization)
           example_upload "" "audio/wav"
           (PList [PDict {[ "end" := PInt 1; "text" := PStr "hi";
                            "speaker" := PStr "Alice" ]}])
           (HTTPException 500 (inr (KeyError "start")))
           [] [LoadAudio; Diarize]);
    vm_compute; reflexivity.
Defined.

Section Handlers.

Context {A : Type} `{Annotation A}.
Variable repr : pyval → string.
Variable stack : Transcriber A.

(** X12.  An upload whose content type starts neither with ["audio/"] nor with
    ["video/"] is refused by the three handlers alike, with status 400
    and "Invalid file type.", before anything is called; in
    [refine_diarization] even before the segments are parsed. *)
Theorem uploads_of_other_types_are_refused (file : UploadFile)
    (ct segments_json transcript : string) (log : list call)
    (slog : list stack_call) :
  content_type file = Some ct →
  startswith ct "audio/" = false → startswith ct "video/" = false →
  refine_diarization repr (base stack) file segments_json log
    = (Raise (HTTPException 400 (inl "Invalid file type.")), log) ∧
  transcribe_audio repr stack file slog
    = (Raise (HTTPException 400 (inl "Invalid file type.")), slog) ∧
  resynchronize repr stack file transcript slog
    = (Raise (HTTPException 400 (inl "Invalid file type.")), slog).
Proof.
  intros Hct Haudio Hvideo.
  unfold refine_diarization, transcribe_audio, resynchronize, media_upload.
  rewrite Hct.
  unfold mbind, io_bind, logged_bind, lift, pure_step.
  rewrite Haudio, Hvideo. repeat split; reflexivity.
Qed.

(** X13.  In [refine_diarization] a media upload whose [segments_json] the
    parser refuses is answered with 400 and "Invalid segments_json
    format." when the parser raised [JSONDecodeError]; any other
    exception of the parser is not caught and leaves the handler as it
    is.  Either way nothing has been called. *)
Theorem refine_early_failures (file : UploadFile)
    (ct segments_json : string) (e : exn) (log : list call) :
  content_type file = Some ct →
  startswith ct "audio/" || startswith ct "video/" = true →
  json_loads (base stack) segments_json = Raise e →
  refine_diarization repr (base stack) file segments_json log
    = (Raise match e with
             | JSONDecodeError =>
                 HTTPException 400 (inl "Invalid segments_json format.")
             | _ => e
             end,
       log).
Proof.
  intros Hct Hmedia Hjson. unfold refine_diarization. rewrite Hct, Hjson.
  unfold mbind, io_bind, lift. rewrite Hmedia. cbn [negb].
  destruct e; reflexivity.
Qed.

(** X22.  On a server without diarization model, a request that has passed
    the checks and whose upload has been copied is answered with 500 once
    the audio has been loaded: the "Diarization model not loaded." error,
    itself caught and wrapped by the handler, or the loader's own
    error. *)
Theorem refine_without_diarization_model (file : UploadFile)
    (ct segments_json : string) (payload : pyval) (log : list call) :
  content_type file = Some ct →
  startswith ct "audio/" || startswith ct "video/" = true →
  json_loads (base stack) segments_json = Ok payload →
  temporary_copy (base stack) file = Ok tt →
  diarize_model (base stack) = None →
  refine_diarization repr (base stack) file segments_json log
    = (Raise
         (HTTPException 500
            (inr match load_audio (base stack) (content file) with
                 | Ok _ =>
                     HTTPException 500 (inl "Diarization model not loaded.")
                 | Raise e => e
                 end)),
       log ++ [LoadAudio]).
Proof.
  intros Hct Hmedia Hjson Hcopy Hnone. unfold refine_diarization.
  rewrite Hct, Hjson, Hcopy. unfold mbind, io_bind, lift. rewrite Hmedia.
  cbn [negb]. unfold try_except, refine_body, mbind, io_bind, invoke, lift.
  rewrite Hnone.
  destruct (load_audio (base stack) (content file)); reflexivity.
Qed.

(** X23.  The temporary copy of the upload is made before the [try] block:
    when it fails (no file name, a suffix the file system refuses, an
    upload that cannot be read, a file that cannot be written), the
    exception leaves the three handlers as it is, not as an
    [HTTPException], and nothing has been called. *)
Theorem upload_copy_failures_are_not_caught (file : UploadFile)
    (ct segments_json transcript : string) (payload : pyval) (e : exn)
    (log : list call) (slog : list stack_call) :
  content_type file = Some ct →
  startswith ct "audio/" || startswith ct "video/" = true →
  json_loads (base stack) segments_json = Ok payload →
  temporary_copy (base stack) file = Raise e →
  (refine_diarization repr (base stack) file segments_json log
     = (Raise e, log) ∧
   transcribe_audio repr stack file slog = (Raise e, slog) ∧
   resynchronize repr stack file transcript slog = (Raise e, slog)) ∧
  (filename file = None ∧ e = TypeError ∨
   ∃ name, filename file = Some name ∧
     (NamedTemporaryFile (base stack) (splitext name).2 = Raise e ∨
      NamedTemporaryFile (base stack) (splitext name).2 = Ok tt ∧
      (read_error (base stack) file = Some e ∨
       read_error (base stack) file = None ∧
       write (base stack) (content file) = Raise e))).
Proof.
  intros Hct Hmedia Hjson Hcopy. split.
  - unfold refine_diarization, transcribe_audio, resynchronize, media_upload.
    rewrite Hct, Hjson, Hcopy.
    unfold mbind, io_bind, logged_bind, lift, pure_step. rewrite Hmedia.
    repeat split; reflexivity.
  - unfold temporary_copy in Hcopy.
    destruct (filename file) as [name | ]; cbn [mbind result_bind] in Hcopy;
      [right; exists name; split; [reflexivity | ] | left; split; congruence].
    destruct (NamedTemporaryFile (base stack) (splitext name).2) as [[] | e'];
      cbn [mbind result_bind] in Hcopy; [right; split; [reflexivity | ] | ].
    + destruct (read_error (base stack) file) as [e' | ];
        cbn [mbind result_bind] in Hcopy; [left; congruence | right].
      split; [reflexivity | exact Hcopy].
    + left. exact Hcopy.
Qed.

(** X16.  The segments handed to the speaker assignment keep the text, start
    and end of the user's segments, one for one, and nothing else: the
    speakers the user sent are dropped, and every user segment must be
    an object with the three keys. *)
Theorem user_speakers_are_dropped (items : list pyval)
    (stripped : list dict) :
  mapM without_speaker items = Ok stripped →
  length stripped = length items ∧
  ∀ i d', stripped !! i = Some d' →
    ∃ d, items !! i = Some (PDict d) ∧
      is_Some (d !! "text") ∧ is_Some (d !! "start") ∧ is_Some (d !! "end") ∧
      d' !! "text" = d !! "text" ∧ d' !! "start" = d !! "start" ∧
      d' !! "end" = d !! "end" ∧ d' !! "speaker" = None ∧
      ∀ key, key ≠ "text" → key ≠ "start" → key ≠ "end" → d' !! key = None.
Proof.
  revert stripped. induction items as [ | item items IH]; intros stripped.
  - intros [= <-]. split; [reflexivity | ].
    intros i d' Hi. rewrite lookup_nil in Hi. discriminate.
  - change (mapM without_speaker (item :: items))
      with (y ← without_speaker item;
            k ← mapM without_speaker items; mret (y :: k)).
    destruct (without_speaker item) as [first | ] eqn:Hfirst;
      cbn [mbind result_bind]; [ | discriminate].
    destruct (mapM without_speaker items) as [rest | ] eqn:Hrest;
      cbn [mbind result_bind mret result_ret]; [ | discriminate].
    intros [= <-]. destruct (IH rest eq_refl) as [Hlen Hrest'].
    split; [simpl; congruence | ].
    intros [ | i] d' Hi; simpl in Hi; [ | apply Hrest'; exact Hi].
    injection Hi as <-.
    unfold without_speaker, py_getitem, getitem in Hfirst.
    destruct item as [ | | | | | | d]; try discriminate.
    destruct (d !! "text") as [text | ] eqn:Ht;
      cbn [mbind result_bind] in Hfirst; [ | discriminate].
    destruct (d !! "start") as [start | ] eqn:Hs;
      cbn [mbind result_bind] in Hfirst; [ | discriminate].
    destruct (d !! "end") as [end_ | ] eqn:He;
      cbn [mbind result_bind] in Hfirst; [ | discriminate].
    injection Hfirst as <-. exists d. rewrite Ht, Hs, He.
    repeat split; eauto; try (by simplify_map_eq).
    intros key H1 H2 H3. by simplify_map_eq.
Qed.

(** X17.  When [transcribe_audio] answers, the audio was loaded, transcribed
    by the large model and aligned in the language that model
    recognised; without diarization model nothing more is called and the
    answer is the aligner's segments, with one the diarization is run
    and the answer is what the speaker assignment returned.  Either way
    the subtitles are the rendering of the segments returned. *)
Theorem transcribe_audio_answer (file : UploadFile) (srt : string)
    (segs : list dict) (log log' : list stack_call) :
  transcribe_audio repr stack file log = (Ok (srt, segs), log') →
  ∃ audio result align_model aligned,
    load_audio (base stack) (content file) = Ok audio ∧
    transcribe stack "whisper" audio = Ok result ∧
    load_align_model stack (result_language result) = Ok align_model ∧
    align stack (result_segments result) align_model audio = Ok aligned ∧
    generate_srt repr segs = Ok srt ∧
    match diarize_model (base stack) with
    | None =>
        segs = aligned ∧
        log' = log ++ [CallLoadAudio; CallTranscribe "whisper";
                       CallLoadAlignModel (result_language result);
                       CallAlign (result_segments result)]
    | Some diarize =>
        ∃ diarization,
          diarize audio = Ok diarization ∧
          assign_word_speakers (base stack) diarization aligned = Ok segs ∧
          log' = log ++ [CallLoadAudio; CallTranscribe "whisper";
                         CallLoadAlignModel (result_language result);
                         CallAlign (result_segments result);
                         CallDiarize; CallAssignWordSpeakers]
    end.
Proof.
  unfold transcribe_audio, media_upload.
  destruct (content_type file) as [ct | ];
    unfold mbind at 1 2, logged_bind, pure_step; [ | discriminate].
  destruct (negb _); [discriminate | ].
  destruct (temporary_copy (base stack) file) as [[] | ]; [ | discriminate].
  unfold catch_all, transcribe_body, mbind, logged_bind, perform, pure_step,
    mret, logged_ret.
  destruct (load_audio (base stack) (content file)) as [audio | ] eqn:Haudio;
    [ | discriminate].
  destruct (transcribe stack "whisper" audio) as [result | ] eqn:Htr;
    [ | discriminate].
  destruct (load_align_model stack (result_language result))
    as [align_model | ] eqn:Hload; [ | discriminate].
  destruct (align stack (result_segments result) align_model audio)
    as [aligned | ] eqn:Halign; [ | discriminate].
  destruct (diarize_model (base stack)) as [diarize | ] eqn:Hmodel.
  - destruct (diarize audio) as [diarization | ] eqn:Hdiar; [ | discriminate].
    destruct (assign_word_speakers (base stack) diarization aligned)
      as [assigned | ] eqn:Hassign; [ | discriminate].
    destruct (generate_srt repr assigned) as [out | ] eqn:Hsrt;
      [ | discriminate].
    intros [= <- <- <-]. exists audio, result, align_model, aligned.
    repeat split; try assumption.
    exists diarization. repeat split; try assumption.
    rewrite <- !app_assoc. reflexivity.
  - cbv beta iota.
    destruct (generate_srt repr aligned) as [out | ] eqn:Hsrt;
      [ | discriminate].
    intros [= <- <- <-]. exists audio, result, align_model, aligned.
    repeat split; try assumption.
    rewrite <- !app_assoc. reflexivity.
Qed.

(** X18.  When [resynchronize] answers, the audio was loaded, the tiny model
    was run (only its language is used), and the aligner was given the
    lines of the transcript, not what the model recognised; the answer is
    the aligner's segments and their rendering.  No diarization is run
    and no speaker assigned. *)
Theorem resynchronize_answer (file : UploadFile) (transcript srt : string)
    (segs : list dict) (log log' : list stack_call) :
  resynchronize repr stack file transcript log = (Ok (srt, segs), log') →
  ∃ audio result align_model,
    load_audio (base stack) (content file) = Ok audio ∧
    transcribe stack "whisper_tiny" audio = Ok result ∧
    load_align_model stack (result_language result) = Ok align_model ∧
    align stack (transcript_segments transcript) align_model audio
      = Ok segs ∧
    generate_srt repr segs = Ok srt ∧
    log' = log ++ [CallLoadAudio; CallTranscribe "whisper_tiny";
                   CallLoadAlignModel (result_language result);
                   CallAlign (transcript_segments transcript)].
Proof.
  unfold resynchronize, media_upload.
  destruct (content_type file) as [ct | ];
    unfold mbind at 1 2, logged_bind, pure_step; [ | discriminate].
  destruct (negb _); [discriminate | ].
  destruct (temporary_copy (base stack) file) as [[] | ]; [ | discriminate].
  unfold catch_all, resynchronize_body, mbind, logged_bind, perform,
    pure_step, mret, logged_ret.
  destruct (load_audio (base stack) (content file)) as [audio | ] eqn:Haudio;
    [ | discriminate].
  destruct (transcribe stack "whisper_tiny" audio) as [result | ] eqn:Htr;
    [ | discriminate].
  destruct (load_align_model stack (result_language result))
    as [align_model | ] eqn:Hload; [ | discriminate].
  destruct (align stack (transcript_segments transcript) align_model audio)
    as [aligned | ] eqn:Halign; [ | discriminate].
  destruct (generate_srt repr aligned) as [out | ] eqn:Hsrt;
    [ | discriminate].
  intros [= <- <- <-]. exists audio, result, align_model.
  repeat split; try assumption.
  rewrite <- !app_assoc. reflexivity.
Qed.

(** The [try] blocks of the two handlers start with the audio loader, and
    calls are only ever added to the log. *)
Lemma transcribe_body_calls (file : UploadFile)
    (r : result (string * list dict)) (log log' : list stack_call) :
  transcribe_body repr stack file log = (r, log') →
  ∃ calls, log' = log ++ CallLoadAudio :: calls.
Proof.
  unfold transcribe_body, mbind, logged_bind, perform, pure_step, mret,
    logged_ret.
  destruct (load_audio (base stack) (content file)) as [audio | ];
    [ | intros [= _ <-]; eauto].
  destruct (transcribe stack "whisper" audio) as [result | ];
    [ | intros [= _ <-]; rewrite <- !app_assoc; eauto].
  destruct (load_align_model stack (result_language result))
    as [align_model | ]; [ | intros [= _ <-]; rewrite <- !app_assoc; eauto].
  destruct (align stack (result_segments result) align_model audio)
    as [aligned | ]; [ | intros [= _ <-]; rewrite <- !app_assoc; eauto].
  destruct (diarize_model (base stack)) as [diarize | ].
  - destruct (diarize audio) as [diarization | ];
      [ | intros [= _ <-]; rewrite <- !app_assoc; eauto].
    destruct (assign_word_speakers (base stack) diarization aligned)
      as [assigned | ]; [ | intros [= _ <-]; rewrite <- !app_assoc; eauto].
    destruct (generate_srt repr assigned);
      intros [= _ <-]; rewrite <- !app_assoc; eauto.
  - cbv beta iota.
    destruct (generate_srt repr aligned);
      intros [= _ <-]; rewrite <- !app_assoc; eauto.
Qed.

Lemma resynchronize_body_calls (file : UploadFile) (transcript : string)
    (r : result (string * list dict)) (log log' : list stack_call) :
  resynchronize_body repr stack file transcript log = (r, log') →
  ∃ calls, log' = log ++ CallLoadAudio :: calls.
Proof.
  unfold resynchronize_body, mbind, logged_bind, perform, pure_step, mret,
    logged_ret.
  destruct (load_audio (base stack) (content file)) as [audio | ];
    [ | intros [= _ <-]; eauto].
  destruct (transcribe stack "whisper_tiny" audio) as [result | ];
    [ | intros [= _ <-]; rewrite <- !app_assoc; eauto].
  destruct (load_align_model stack (result_language result))
    as [align_model | ]; [ | intros [= _ <-]; rewrite <- !app_assoc; eauto].
  destruct (align stack (transcript_segments transcript) align_model audio)
    as [aligned | ]; [ | intros [= _ <-]; rewrite <- !app_assoc; eauto].
  destruct (generate_srt repr aligned);
    intros [= _ <-]; rewrite <- !app_assoc; eauto.
Qed.

(** X19.  Once the upload is a media file and its temporary copy has been
    written, whatever goes wrong in [transcribe_audio] or [resynchronize]
    (a model that fails, segments that cannot be rendered) leaves the
    handler as a 500 whose detail is the text of the exception caught;
    the audio loader has been called by then. *)
Theorem transcription_failures_are_500 (file : UploadFile)
    (ct transcript : string) (e : exn) (log log' : list stack_call) :
  content_type file = Some ct →
  startswith ct "audio/" || startswith ct "video/" = true →
  temporary_copy (base stack) file = Ok tt →
  transcribe_audio repr stack file log = (Raise e, log') ∨
  resynchronize repr stack file transcript log = (Raise e, log') →
  (∃ cause, e = HTTPException 500 (inr cause)) ∧
  ∃ calls, log' = log ++ CallLoadAudio :: calls.
Proof.
  intros Hct Hmedia Hcopy.
  assert (media_upload stack file log = (Ok tt, log)) as Hupload.
  { unfold media_upload. rewrite Hct, Hcopy.
    unfold mbind, logged_bind, pure_step. rewrite Hmedia. reflexivity. }
  unfold transcribe_audio, resynchronize.
  unfold mbind, logged_bind. rewrite Hupload. unfold catch_all, pure_step.
  intros [Hfail | Hfail].
  - destruct (transcribe_body repr stack file log) as [[resp | cause] l1]
      eqn:Hbody; [discriminate | ].
    injection Hfail as <- <-. split; [eauto | ].
    exact (transcribe_body_calls file _ log l1 Hbody).
  - destruct (resynchronize_body repr stack file transcript log)
      as [[resp | cause] l1] eqn:Hbody; [discriminate | ].
    injection Hfail as <- <-. split; [eauto | ].
    exact (resynchronize_body_calls file transcript _ log l1 Hbody).
Qed.

End Handlers.

(** Examples for the statements about the handlers. *)

Lemma uploads_of_other_types_are_refused_witness :
  let stack := example_transcriber None one_second_each in
  let file := {| content_type := Some "text/plain";
                 filename := Some "notes.txt"; content := "" |} in
  refine_diarization (λ _, "") (base stack) file "[]" []
    = (Raise (HTTPException 400 (inl "Invalid file type.")), []) ∧
  transcribe_audio (λ _, "") stack file []
    = (Raise (HTTPException 400 (inl "Invalid file type.")), []) ∧
  resynchronize (λ _, "") stack file "one" []
    = (Raise (HTTPException 400 (inl "Invalid file type.")), []).
Proof.
  intros stack file.
  apply (uploads_of_other_types_are_refused (λ _, "") stack file
           "text/plain" "[]" "one" [] []); reflexivity.
Defined.

(** A parser that gives up on the nesting of its input, and one that
    finds it is not JSON. *)
Lemma refine_early_failures_witness :
  let deep :=
    {| base :=
         {| Audio := unit;
            json_loads := λ _, Raise RecursionError;
            NamedTemporaryFile := example_NamedTemporaryFile;
            read_error := λ _, None;
            write := λ _, Ok tt;
            load_audio := λ _, Ok tt;
            diarize_model := Some (λ _, Ok example_diarization);
            assign_word_speakers := λ _ segs, Ok segs |};
       AlignModel := unit;
       transcribe := λ _ _, Raise ValueError;
       load_align_model := λ _, Ok tt;
       align := λ segs _ _, Ok segs |} in
  refine_diarization (λ _, "") (base deep) example_upload "[[[[" []
    = (Raise RecursionError, []) ∧
  refine_diarization (λ _, "")
      (base (example_transcriber None one_second_each)) example_upload "[" []
    = (Raise (HTTPException 400 (inl "Invalid segments_json format.")), []).
Proof.
  intros deep. split.
  - apply (refine_early_failures (λ _, "") deep example_upload
             "audio/wav" "[[[[" RecursionError []); reflexivity.
  - apply (refine_early_failures (λ _, "")
             (example_transcriber None one_second_each) example_upload
             "audio/wav" "[" JSONDecodeError []); reflexivity.
Defined.

Lemma refine_without_diarization_model_witness :
  let stack :=
    {| base :=
         {| Audio := unit;
            json_loads := λ _, Ok (PList []);
            NamedTemporaryFile := example_NamedTemporaryFile;
            read_error := λ _, None;
            write := λ _, Ok tt;
            load_audio := λ _, Ok tt;
            diarize_model := None;
            assign_word_speakers := λ (_ : list track) segs, Ok segs |};
       AlignModel := unit;
       transcribe := λ _ _, Raise ValueError;
       load_align_model := λ _, Ok tt;
       align := λ segs _ _, Ok segs |} in
  refine_diarization (λ _, "") (base stack) example_upload "[]" []
    = (Raise
         (HTTPException 500
            (inr (HTTPException 500 (inl "Diarization model not loaded.")))),
       [LoadAudio]).
Proof.
  intros stack.
  apply (refine_without_diarization_model (λ _, "") stack example_upload
           "audio/wav" "[]" (PList []) []); reflexivity.
Defined.

(** An upload whose name has an extension of three hundred characters:
    the temporary file cannot be made. *)
Lemma upload_copy_failures_are_not_caught_witness :
  let stack :=
    {| base := example_stack (Some (PList [])) example_diarization;
       AlignModel := unit;
       transcribe := λ _ _, Raise ValueError;
       load_align_model := λ _, Ok tt;
       align := λ segs _ _, Ok segs |} in
  let long_name := "talk." +:+ string_of_list_ascii (replicate 300 "a"%char) in
  let file := {| content_type := Some "audio/wav";
                 filename := Some long_name; content := "" |} in
  (refine_diarization (λ _, "") (base stack) file "[]" []
     = (Raise OSError, []) ∧
   transcribe_audio (λ _, "") stack file [] = (Raise OSError, []) ∧
   resynchronize (λ _, "") stack file "one" [] = (Raise OSError, [])) ∧
  (filename file = None ∧ OSError = TypeError ∨
   ∃ name, filename file = Some name ∧
     (NamedTemporaryFile (base stack) (splitext name).2 = Raise OSError ∨
      NamedTemporaryFile (base stack) (splitext name).2 = Ok tt ∧
      (read_error (base stack) file = Some OSError ∨
       read_error (base stack) file = None ∧
       write (base stack) (content file) = Raise OSError))).
Proof.
  intros stack long_name file.
  apply (upload_copy_failures_are_not_caught (λ _, "") stack file
           "audio/wav" "[]" "one" (PList []) OSError [] []);
    vm_compute; reflexivity.
Defined.

Lemma user_speakers_are_dropped_witness :
  let items := [user_segment 1 2 "hi" "Alice"] in
  let stripped : list dict :=
    [ {[ "text" := PStr "hi"; "start" := PInt 1; "end" := PInt 2 ]} ] in
  length stripped = length items ∧
  ∀ i d', stripped !! i = Some d' →
    ∃ d, items !! i = Some (PDict d) ∧
      is_Some (d !! "text") ∧ is_Some (d !! "start") ∧ is_Some (d !! "end") ∧
      d' !! "text" = d !! "text" ∧ d' !! "start" = d !! "start" ∧
      d' !! "end" = d !! "end" ∧ d' !! "speaker" = None ∧
      ∀ key, key ≠ "text" → key ≠ "start" → key ≠ "end" → d' !! key = None.
Proof.
  intros items stripped.
  apply (user_speakers_are_dropped items stripped).
  vm_compute. reflexivity.
Defined.

Lemma transcribe_audio_answer_witness :
  let stack := example_transcriber None one_second_each in
  let segs : list dict :=
    [ {[ "start" := PInt 0; "end" := PInt 1; "text" := PStr "hello" ]} ] in
  ∃ audio result align_model aligned,
    load_audio (base stack) (content example_upload) = Ok audio ∧
    transcribe stack "whisper" audio = Ok result ∧
    load_align_model stack (result_language result) = Ok align_model ∧
    align stack (result_segments result) align_model audio = Ok aligned ∧
    generate_srt (λ _, "") segs
      = Ok (cue_block 1 "00:00:00,000" "00:00:01,000" "hello") ∧
    match diarize_model (base stack) with
    | None =>
        segs = aligned ∧
        [CallLoadAudio; CallTranscribe "whisper"; CallLoadAlignModel "en";
         CallAlign segs]
          = [] ++ [CallLoadAudio; CallTranscribe "whisper";
                   CallLoadAlignModel (result_language result);
                   CallAlign (result_segments result)]
    | Some diarize =>
        ∃ diarization,
          diarize audio = Ok diarization ∧
          assign_word_speakers (base stack) diarization aligned = Ok segs ∧
          [CallLoadAudio; CallTranscribe "whisper"; CallLoadAlignModel "en";
           CallAlign segs]
            = [] ++ [CallLoadAudio; CallTranscribe "whisper";
                     CallLoadAlignModel (result_language result);
                     CallAlign (result_segments result);
                     CallDiarize; CallAssignWordSpeakers]
    end.
Proof.
  intros stack segs.
  apply (transcribe_audio_answer (λ _, "") stack example_upload
           (cue_block 1 "00:00:00,000" "00:00:01,000" "hello") segs []
           [CallLoadAudio; CallTranscribe "whisper"; CallLoadAlignModel "en";
            CallAlign segs]).
  vm_compute. reflexivity.
Defined.

Lemma resynchronize_answer_witness :
  let stack := example_transcriber None one_second_each in
  let transcript := "one" +:+ nl +:+ "  " +:+ nl +:+ " two" in
  let segs : list dict :=
    [ {[ "start" := PInt 0; "end" := PInt 1; "text" := PStr "one" ]};
      {[ "start" := PInt 1; "end" := PInt 2; "text" := PStr " two" ]} ] in
  ∃ audio result align_model,
    load_audio (base stack) (content example_upload) = Ok audio ∧
    transcribe stack "whisper_tiny" audio = Ok result ∧
    load_align_model stack (result_language result) = Ok align_model ∧
    align stack (transcript_segments transcript) align_model audio
      = Ok segs ∧
    generate_srt (λ _, "") segs
      = Ok (cue_block 1 "00:00:00,000" "00:00:01,000" "one" +:+
            cue_block 2 "00:00:01,000" "00:00:02,000" "two") ∧
    [CallLoadAudio; CallTranscribe "whisper_tiny"; CallLoadAlignModel "en";
     CallAlign [ {[ "text" := PStr "one" ]}; {[ "text" := PStr " two" ]} ]]
      = [] ++ [CallLoadAudio; CallTranscribe "whisper_tiny";
               CallLoadAlignModel (result_language result);
               CallAlign (transcript_segments transcript)].
Proof.
  intros stack transcript segs.
  apply (resynchronize_answer (λ _, "") stack example_upload transcript
           (cue_block 1 "00:00:00,000" "00:00:01,000" "one" +:+
            cue_block 2 "00:00:01,000" "00:00:02,000" "two") segs []
           [CallLoadAudio; CallTranscribe "whisper_tiny";
            CallLoadAlignModel "en";
            CallAlign [ {[ "text" := PStr "one" ]};
                        {[ "text" := PStr " two" ]} ]]).
  vm_compute. reflexivity.
Defined.

(** An aligner that returns the lines without times: they cannot be
    rendered. *)
Lemma transcription_failures_are_500_witness :
  (∃ cause, HTTPException 500 (inr (KeyError "start"))
            = HTTPException 500 (inr cause)) ∧
  ∃ calls,
    [CallLoadAudio; CallTranscribe "whisper_tiny"; CallLoadAlignModel "en";
     CallAlign [ {[ "text" := PStr "one" ]} ]]
      = [] ++ CallLoadAudio :: calls.
Proof.
  apply (transcription_failures_are_500 (λ _, "")
           (example_transcriber None Ok) example_upload
           "audio/wav" "one"
           (HTTPException 500 (inr (KeyError "start"))) []
           [CallLoadAudio; CallTranscribe "whisper_tiny";
            CallLoadAlignModel "en"; CallAlign [ {[ "text" := PStr "one" ]} ]]).
  - reflexivity.
  - reflexivity.
  - reflexivity.
  - right. vm_compute. reflexivity.
Defined.

(** ** Relabelling the diarization *)

Lemma tracks_labels_nonempty (a : list track) : a ≠ [] → tracks_labels a ≠ [].
Proof.
  destruct a as [ | t a]; [contradiction | ]. intros _ Hnil.
  assert (track_label t ∈ tracks_labels (t :: a)) as Hin.
  { unfold tracks_labels. rewrite merge_sort_Permutation.
    apply elem_of_remove_dups. rewrite fmap_cons. apply list_elem_of_here. }
  rewrite Hnil in Hin. apply elem_of_nil in Hin. exact Hin.
Qed.

(** X15.  With the diarization as labelled tracks, relabelled as
    [pyannote.core] does it (a new label is drawn with [next(generator)]
    for every label there is), a request that gets as far as the
    relabelling fails there as soon as the fresh diarization has a track:
    the handler passes [speaker_map.get], which is no iterator, the
    [TypeError] is caught by the [try] block and the answer is a 500,
    after the audio was loaded and the diarization run, the speaker
    assignment never being called.  The request of the reconciler's
    example, "Alice" from 2 to 7 against SPEAKER_00 and SPEAKER_01, ends
    this way. *)
Theorem relabelling_fails_when_there_is_a_label (repr : pyval → string)
    (stack : Collaborators (list track)) (file : UploadFile)
    (ct segments_json : string) (payload : pyval) (audio : Audio stack)
    (diarize : Audio stack → result (list track))
    (diarization : list track) (speaker_map : gmap string string)
    (log : list call) :
  content_type file = Some ct →
  startswith ct "audio/" || startswith ct "video/" = true →
  json_loads stack segments_json = Ok payload →
  temporary_copy stack file = Ok tt →
  load_audio stack (content file) = Ok audio →
  diarize_model stack = Some diarize →
  diarize audio = Ok diarization →
  build_speaker_map diarization payload = Ok speaker_map →
  diarization ≠ [] →
  refine_diarization repr stack file segments_json log
    = (Raise (HTTPException 500 (inr TypeError)), log ++ [LoadAudio; Diarize]).
Proof.
  intros Hct Hmedia Hjson Hcopy Haudio Hmodel Hdiar Hmap Htracks.
  unfold refine_diarization. rewrite Hct, Hjson, Hcopy.
  unfold mbind, io_bind, lift. rewrite Hmedia. cbn [negb].
  unfold try_except, refine_body, mbind, io_bind, invoke, lift.
  rewrite Haudio, Hmodel, Hdiar, Hmap.
  cbn [rename_labels tracks_annotation]. unfold tracks_rename_labels.
  pose proof (tracks_labels_nonempty diarization Htracks) as Hlabels.
  destruct (tracks_labels diarization) as [ | label rest];
    [contradiction | ].
  rewrite <- app_assoc. reflexivity.
Qed.

Lemma relabelling_fails_when_there_is_a_label_witness :
  refine_diarization (λ _, "")
      (example_stack (Some (PList [user_segment 2 7 "hello" "Alice"]))
         example_diarization)
      example_upload "" []
    = (Raise (HTTPException 500 (inr TypeError)), [] ++ [LoadAudio; Diarize]).
Proof.
  apply (relabelling_fails_when_there_is_a_label (λ _, "")
           (example_stack (Some (PList [user_segment 2 7 "hello" "Alice"]))
              example_diarization)
           example_upload "audio/wav" ""
           (PList [user_segment 2 7 "hello" "Alice"]) tt
           (λ _, Ok example_diarization) example_diarization
           {[ "SPEAKER_00" := "Alice" ]} []);
    try (vm_compute; reflexivity).
  discriminate.
Defined.

(** ** The lines of a transcript *)

Lemma plain_byte_no_break (b : N) (rest : list N) :
  plain_byte b = true → line_break_length (b :: rest) = 0%nat.
Proof.
  unfold plain_byte, line_break_length. intros Hplain.
  destruct b as [ | p]; [reflexivity | ].
  do 8 (try (destruct p as [p | p | ]; try reflexivity;
             try (vm_compute in Hplain; discriminate))).
Qed.

Lemma bytes_of_string_app (a b : string) :
  bytes_of_string (a +:+ b) = bytes_of_string a ++ bytes_of_string b.
Proof.
  unfold bytes_of_string. induction a as [ | c a IH]; [reflexivity | ].
  rewrite append_cons. cbn [list_ascii_of_string fmap list_fmap].
  cbn [list_ascii_of_string fmap list_fmap] in IH. rewrite IH. reflexivity.
Qed.

Lemma string_of_bytes_of_string (s : string) :
  string_of_bytes (bytes_of_string s) = s.
Proof.
  unfold string_of_bytes, bytes_of_string.
  induction s as [ | c s IH]; [reflexivity | ].
  cbn [list_ascii_of_string fmap list_fmap string_of_list_ascii].
  cbn [fmap list_fmap] in IH. rewrite IH, ascii_N_embedding. reflexivity.
Qed.

(** Reading one line made of plain bytes and ended by a line feed. *)
Lemma splitlines_from_line (line : list N) :
  Forall (λ b, plain_byte b = true) line →
  ∀ cur rest fuel,
    (length line + 1 + length rest ≤ fuel)%nat →
    splitlines_from fuel cur (line ++ 10%N :: rest) =
    reverse (reverse line ++ cur)
      :: splitlines_from (fuel - length line - 1) [] rest.
Proof.
  induction 1 as [ | b line Hb Hline IH]; intros cur rest fuel Hfuel.
  - destruct fuel as [ | fuel]; [simpl in Hfuel; lia | ].
    cbn [app length]. cbn [splitlines_from line_break_length drop].
    rewrite drop_0. replace (S fuel - 0 - 1)%nat with fuel by lia.
    reflexivity.
  - destruct fuel as [ | fuel]; [simpl in Hfuel; lia | ].
    cbn [app]. cbn [splitlines_from].
    change (b :: line ++ 10%N :: rest) with (b :: (line ++ 10%N :: rest)).
    rewrite (plain_byte_no_break b _ Hb).
    rewrite IH by (simpl in Hfuel; lia).
    rewrite reverse_cons, <- app_assoc. reflexivity.
Qed.

Lemma splitlines_from_lines (lines : list (list N)) :
  Forall (Forall (λ b, plain_byte b = true)) lines →
  ∀ fuel,
    (length (concat ((λ l, l ++ [10%N]) <$> lines)) ≤ fuel)%nat →
    splitlines_from fuel [] (concat ((λ l, l ++ [10%N]) <$> lines)) = lines.
Proof.
  induction 1 as [ | line lines Hline Hlines IH]; intros fuel Hfuel.
  - destruct fuel; reflexivity.
  - rewrite fmap_cons in *. cbn [concat] in *.
    rewrite <- app_assoc in *. cbn [app] in *.
    rewrite !length_app in Hfuel. cbn [length] in Hfuel.
    rewrite (splitlines_from_line line Hline) by lia.
    rewrite app_nil_r, reverse_involutive. f_equal.
    apply IH. lia.
Qed.

Lemma bytes_of_join_lines (lines : list string) :
  bytes_of_string (join_lines lines) =
  concat ((λ l, l ++ [10%N]) <$> (bytes_of_string <$> lines)).
Proof.
  induction lines as [ | line lines IH]; [reflexivity | ].
  cbn [join_lines foldr]. fold (join_lines lines).
  rewrite !bytes_of_string_app, IH, !fmap_cons. cbn [concat].
  rewrite <- app_assoc. reflexivity.
Qed.

(** X20.  A transcript typed as lines, each ended by a line feed and none of
    them holding a byte a line boundary starts with, is taken apart into
    those lines again; [resynchronize] hands the aligner one segment for
    each line that is not blank, in the order of the lines, with the line
    as its text, spaces around it included, and no other key. *)
Theorem transcript_gives_one_segment_per_line (lines : list string) :
  Forall plain_line lines →
  splitlines (join_lines lines) = lines ∧
  transcript_segments (join_lines lines) =
    (λ line, ({[ "text" := PStr line ]} : dict)) <$>
      filter (λ line, py_strip line ≠ "") lines.
Proof.
  intros Hplain.
  assert (splitlines (join_lines lines) = lines) as Hsplit.
  { unfold splitlines. rewrite bytes_of_join_lines.
    rewrite splitlines_from_lines.
    - rewrite <- list_fmap_compose.
      rewrite <- (list_fmap_id lines) at 2. apply list_fmap_ext.
      intros i line _. apply string_of_bytes_of_string.
    - apply Forall_fmap. exact Hplain.
    - lia. }
  split; [exact Hsplit | ].
  unfold transcript_segments. rewrite Hsplit. f_equal.
  apply list_filter_iff. intros line.
  destruct (py_strip line); simpl; split; intros; congruence.
Qed.

Lemma transcript_gives_one_segment_per_line_witness :
  let lines := ["Hello there."; "   "; " General Kenobi"] in
  splitlines (join_lines lines) = lines ∧
  transcript_segments (join_lines lines) =
    (λ line, ({[ "text" := PStr line ]} : dict)) <$>
      filter (λ line, py_strip line ≠ "") lines.
Proof.
  intros lines.
  apply (transcript_gives_one_segment_per_line lines).
  repeat constructor.
Defined.

(** ** Startup *)

(** X21.  When [load_models] succeeds, both recognition models were loaded for
    the same device and compute type, and there is a diarization
    pipeline exactly when [HF_TOKEN] is set, not empty and not the
    placeholder: then it is the pipeline built with that token;
    otherwise the pipeline constructor has no part in the result. *)
Theorem load_models_needs_a_token_for_diarization
    {W M : Type} (cuda_is_available : bool)
    (load_model : string → string → string → result W)
    (DiarizationPipeline : string → string → result M)
    (HF_TOKEN : option string) (models : Models W M) :
  load_models cuda_is_available load_model DiarizationPipeline HF_TOKEN
    = Ok models →
  load_model "large-v3" (DEVICE cuda_is_available)
    (COMPUTE_TYPE cuda_is_available) = Ok (models_whisper models) ∧
  load_model "tiny" (DEVICE cuda_is_available)
    (COMPUTE_TYPE cuda_is_available) = Ok (models_whisper_tiny models) ∧
  match models_diarize models with
  | None =>
      HF_TOKEN = None ∨ HF_TOKEN = Some "" ∨
      HF_TOKEN = Some "YOUR_HUGGING_FACE_TOKEN"
  | Some pipeline =>
      ∃ token,
        HF_TOKEN = Some token ∧ token ≠ "" ∧
        token ≠ "YOUR_HUGGING_FACE_TOKEN" ∧
        DiarizationPipeline token (DEVICE cuda_is_available) = Ok pipeline
  end.
Proof.
  unfold load_models. cbv zeta. change MODEL_SIZE with "large-v3".
  destruct (load_model "large-v3" _ _) as [whisper | ];
    cbn [mbind result_bind]; [ | discriminate].
  destruct (load_model "tiny" _ _) as [tiny | ];
    cbn [mbind result_bind]; [ | discriminate].
  destruct HF_TOKEN as [token | ].
  - destruct (negb (truthy (PStr token))) eqn:Hempty; cbn [orb].
    + cbn [mbind result_bind]. intros [= <-]. cbn.
      repeat split. right. left. destruct token; [reflexivity | discriminate].
    + destruct (String.eqb_spec token "YOUR_HUGGING_FACE_TOKEN")
        as [-> | Hne].
      * cbn [mbind result_bind]. intros [= <-]. cbn. repeat split.
        right. right. reflexivity.
      * destruct (DiarizationPipeline token _) as [pipeline | ] eqn:Hpipe;
          cbn [mbind result_bind]; [ | discriminate].
        intros [= <-]. cbn. repeat split. exists token.
        repeat split; try assumption.
        intros ->. discriminate.
  - cbn [mbind result_bind]. intros [= <-]. cbn. repeat split.
    left. reflexivity.
Qed.

Lemma load_models_needs_a_token_for_diarization_witness :
  let models : Models string string :=
    {| models_whisper := "large-v3 on cpu, int8";
       models_whisper_tiny := "tiny on cpu, int8";
       models_diarize := None |} in
  Ok "large-v3 on cpu, int8" = Ok (models_whisper models) ∧
  Ok "tiny on cpu, int8" = Ok (models_whisper_tiny models) ∧
  (Some "YOUR_HUGGING_FACE_TOKEN" = None ∨
   Some "YOUR_HUGGING_FACE_TOKEN" = Some "" ∨
   Some "YOUR_HUGGING_FACE_TOKEN" = Some "YOUR_HUGGING_FACE_TOKEN").
Proof.
  intros models.
  apply (load_models_needs_a_token_for_diarization false
           (λ size device compute_type,
              Ok (size +:+ " on " +:+ device +:+ ", " +:+ compute_type))
           (λ token device, Ok ("pipeline on " +:+ device))
           (Some "YOUR_HUGGING_FACE_TOKEN") models).
  vm_compute. reflexivity.
Defined.
